(** * DocuCraft: the image-collage layout engine ([mergeImages])

    A shallow embedding of [mergeImages] from [src/utils/imageUtils.ts]
    together with the properties of its layout geometry.

    Modelling conventions.
    - A JavaScript [number] is an exact rational ([Q]); results are compared
      with [==].  Binary64 rounding is not modelled, and neither are [NaN] and
      the infinities: a division is only meaningful with a non-zero divisor,
      which is why the theorems on the geometry ask for images of positive
      natural size (what a decoded bitmap has).
    - [HTMLImageElement.width]/[height] and [canvas.width]/[height] are
      integers ([Z]).  [canvas.width = Math.floor(v)] stores [Qfloor v]; the
      DOM's coercion of values outside the range of a canvas dimension is not
      modelled.  The theorems on the size of the canvas are therefore stated
      for sizes a canvas can have ([canvas_range]) and up to the pixel that
      binary64 rounding can cost ([rounded_down]).
    - [encoder env] records whether [toBlob] handed a blob in this run; a
      browser hands none for a canvas of width or height 0
      ([toBlob_needs_pixels]).
    - [await], [Promise.all] and the [try]/[catch] block are an exception
      monad; the browser (decoding, 2d context, PNG encoder, clock) is an
      explicit environment.

    After [mergeImages] come the other operations of [imageUtils.ts]
    ([createThumbnail], [cropImage], [convertImageFormat], [compressImage],
    [compressMultipleImages]), the merge handler of [App.tsx], and from
    [pdfUtils.ts] the page fit of [imagesToPDFjsPDF] and [mergePDFs].  The
    libraries they call (image compression, pdf-lib) and the number
    formatting [toFixed] are parameters of the model; a library failure is an
    [Error] with a message. *)

From Stdlib Require Import Ascii String DecimalString.
From Stdlib Require Import ZArith QArith Qminmax Qround Bool Lia Lqa List Permutation.
Import ListNotations.

Local Open Scope Z_scope.

(** ** JavaScript primitives used by the engine *)

(** The completion of an [async] computation: a value, or a rejection with
    the [message] of the [Error] thrown. *)
Inductive completion (A : Type) : Type :=
| Resolved (a : A)
| Rejected (message : string).
Arguments Resolved {A} a.
Arguments Rejected {A} message.

Definition await {A B : Type} (c : completion A) (k : A -> completion B) : completion B :=
  match c with
  | Resolved a => k a
  | Rejected m => Rejected m
  end.

Notation "'let*' x ':=' c 'in' k" := (await c (fun x => k))
  (at level 10, x name, c at level 100, k at level 200).

(** [Promise.all]: resolves with every value, in order, or rejects with the
    first rejection. *)
Fixpoint Promise_all {A : Type} (ps : list (completion A)) : completion (list A) :=
  match ps with
  | [] => Resolved []
  | p :: ps' =>
      let* a := p in
      let* rest := Promise_all ps' in
      Resolved (a :: rest)
  end.

(** [v || d] on an optional number: [undefined] and [0] are falsy. *)
Definition number_or (v : option Q) (d : Q) : Q :=
  match v with
  | Some q => if Qeq_bool q 0 then d else q
  | None => d
  end.

(** [v || d] on an optional string: [undefined] and the empty string are falsy. *)
Definition string_or (v : option string) (d : string) : string :=
  match v with
  | Some EmptyString => d
  | Some s => s
  | None => d
  end.

(** [Math.max(...xs)] on integers.  The engine only calls it on a list of at
    least two elements; the value at the empty list is never used. *)
Definition Math_max (xs : list Z) : Z :=
  match xs with
  | [] => 0
  | x :: xs' => fold_left Z.max xs' x
  end.

(** [Math.ceil(Math.sqrt(n))] for a non-negative integer [n]. *)
Definition ceil_sqrt (n : Z) : Z :=
  let r := Z.sqrt n in
  if r * r =? n then r else r + 1.

(** [`${n}`] for an integer. *)
Definition string_of_Z (n : Z) : string := NilZero.string_of_int (Z.to_int n).

(** ** Data model *)

Record HTMLImageElement : Type := { width : Z; height : Z }.

(** An input file, as far as the engine looks at it: what decoding it gives. *)
Record File : Type := { decoded : option HTMLImageElement }.

Inductive Layout : Type := horizontal | vertical | grid.

Record Options : Type := {
  layout : option Layout;
  spacing : option Q;
  backgroundColor : option string;
  maxWidth : option Q
}.

(** The browser around one call. *)
Record Env : Type := {
  context2d : bool;   (* canvas.getContext('2d') is not null *)
  encoder : bool;     (* canvas.toBlob hands a blob to its callback *)
  now : Z             (* Date.now() *)
}.

(** One [ctx.drawImage(img, x, y, scaledWidth, scaledHeight)]. *)
Record Placement : Type := {
  image : HTMLImageElement;
  x : Q;
  y : Q;
  scaledWidth : Q;
  scaledHeight : Q
}.

(** The canvas once drawn, which is what the blob encodes. *)
Record Canvas : Type := {
  canvas_width : Z;
  canvas_height : Z;
  fillStyle : string;
  placements : list Placement
}.

(** What [mergeImages] returns.  The object URL of the blob is left out, and
    so are the size fields, which [mergeImages] never sets. *)
Record ProcessingResult : Type := {
  success : bool;
  data : option Canvas;
  filename : option string;
  error : option string
}.

Definition failure (msg : string) : ProcessingResult :=
  {| success := false; data := None; filename := None; error := Some msg |}.

(** ** The engine *)

Definition loadImageFromFile (file : File) : completion HTMLImageElement :=
  match decoded file with
  | Some img => Resolved img
  | None => Rejected "Failed to load image"
  end.

(** An integer read as a [number]. *)
Definition Z2Q : Z -> Q := inject_Z.

(** [images.reduce((sum, img) => sum + img.width, 0)] *)
Definition totalWidth (images : list HTMLImageElement) : Z :=
  fold_left (fun sum img => sum + width img) images 0.

Definition totalHeight (images : list HTMLImageElement) : Z :=
  fold_left (fun sum img => sum + height img) images 0.

Definition maxImgWidth (images : list HTMLImageElement) : Z :=
  Math_max (map width images).

Definition maxImgHeight (images : list HTMLImageElement) : Z :=
  Math_max (map height images).

Definition grid_cols (images : list HTMLImageElement) : Z :=
  ceil_sqrt (Z.of_nat (length images)).

Definition grid_rows (images : list HTMLImageElement) : Z :=
  Qceiling (Z2Q (Z.of_nat (length images)) / Z2Q (grid_cols images)).

Section Geometry.

Variable (spacing_ maxWidth_ : Q).

(** "Calculate canvas dimensions": the pair [(canvasWidth, canvasHeight)]
    before flooring. *)
Definition canvasDimensions (l : Layout) (images : list HTMLImageElement) : Q * Q :=
  let n := Z2Q (Z.of_nat (length images)) in
  match l with
  | horizontal =>
      let scale := Qmin 1 (maxWidth_ / Z2Q (totalWidth images)) in
      ((Z2Q (totalWidth images) + spacing_ * (n - 1)) * scale,
       Z2Q (maxImgHeight images) * scale)%Q
  | vertical =>
      let scale := Qmin 1 (maxWidth_ / Z2Q (maxImgWidth images)) in
      (Z2Q (maxImgWidth images) * scale,
       (Z2Q (totalHeight images) + spacing_ * (n - 1)) * scale)%Q
  | grid =>
      let cols := Z2Q (grid_cols images) in
      let rows := Z2Q (grid_rows images) in
      let scale := Qmin 1 (maxWidth_ / (Z2Q (maxImgWidth images) * cols)) in
      ((Z2Q (maxImgWidth images) * cols + spacing_ * (cols - 1)) * scale,
       (Z2Q (maxImgHeight images) * rows + spacing_ * (rows - 1)) * scale)%Q
  end.

(** The horizontal loop: [x] is the cursor, [rest] the images from index
    [i] on. *)
Fixpoint drawHorizontal (cheight : Z) (scale : Q) (x : Q)
    (rest : list HTMLImageElement) : list Placement :=
  match rest with
  | [] => []
  | img :: rest' =>
      let scaledWidth := (Z2Q (width img) * scale)%Q in
      let scaledHeight := (Z2Q (height img) * scale)%Q in
      let offsetY := ((Z2Q cheight - scaledHeight) / 2)%Q in
      {| image := img; x := x; y := offsetY;
         scaledWidth := scaledWidth; scaledHeight := scaledHeight |}
      :: drawHorizontal cheight scale (x + scaledWidth + spacing_)%Q rest'
  end.

Fixpoint drawVertical (cwidth : Z) (scale : Q) (y : Q)
    (rest : list HTMLImageElement) : list Placement :=
  match rest with
  | [] => []
  | img :: rest' =>
      let scaledWidth := (Z2Q (width img) * scale)%Q in
      let scaledHeight := (Z2Q (height img) * scale)%Q in
      let offsetX := ((Z2Q cwidth - scaledWidth) / 2)%Q in
      {| image := img; x := offsetX; y := y;
         scaledWidth := scaledWidth; scaledHeight := scaledHeight |}
      :: drawVertical cwidth scale (y + scaledHeight + spacing_)%Q rest'
  end.

(** The grid loop, at index [i]. *)
Fixpoint drawGrid (cols mw mh : Z) (scale : Q) (i : Z)
    (rest : list HTMLImageElement) : list Placement :=
  match rest with
  | [] => []
  | img :: rest' =>
      let col := i mod cols in
      let row := Qfloor (Z2Q i / Z2Q cols) in
      let scaledWidth := (Z2Q (width img) * scale)%Q in
      let scaledHeight := (Z2Q (height img) * scale)%Q in
      {| image := img;
         x := (Z2Q col * (Z2Q mw * scale + spacing_))%Q;
         y := (Z2Q row * (Z2Q mh * scale + spacing_))%Q;
         scaledWidth := scaledWidth; scaledHeight := scaledHeight |}
      :: drawGrid cols mw mh scale (i + 1) rest'
  end.

(** "Draw images", on a canvas of the given size. *)
Definition drawImages (l : Layout) (cwidth cheight : Z)
    (images : list HTMLImageElement) : list Placement :=
  match l with
  | horizontal =>
      let scale := (Z2Q cheight / Z2Q (maxImgHeight images))%Q in
      drawHorizontal cheight scale 0 images
  | vertical =>
      let scale := (Z2Q cwidth / Z2Q (maxImgWidth images))%Q in
      drawVertical cwidth scale 0 images
  | grid =>
      let cols := grid_cols images in
      let scale :=
        (Z2Q cwidth / (Z2Q (maxImgWidth images) * Z2Q cols + spacing_ * (Z2Q cols - 1)))%Q in
      drawGrid cols (maxImgWidth images) (maxImgHeight images) scale 0 images
  end.

End Geometry.

Definition layout_of (options : Options) : Layout :=
  match layout options with Some l => l | None => vertical end.

Definition spacing_of (options : Options) : Q := number_or (spacing options) 10.

Definition backgroundColor_of (options : Options) : string :=
  string_or (backgroundColor options) "#ffffff".

Definition maxWidth_of (options : Options) : Q := number_or (maxWidth options) 1200.

(** The body of the [try] block. *)
Definition mergeImages_try (env : Env) (imageFiles : list File) (options : Options)
  : completion ProcessingResult :=
  if (length imageFiles =? 0)%nat then
    Resolved (failure "No images selected")
  else if (length imageFiles =? 1)%nat then
    Resolved (failure "Please select at least 2 images to merge")
  else
    let layout := layout_of options in
    let spacing := spacing_of options in
    let backgroundColor := backgroundColor_of options in
    let maxWidth := maxWidth_of options in
    let* images := Promise_all (map loadImageFromFile imageFiles) in
    let '(canvasWidth, canvasHeight) := canvasDimensions spacing maxWidth layout images in
    let cwidth := Qfloor canvasWidth in
    let cheight := Qfloor canvasHeight in
    if negb (context2d env) then
      Resolved (failure "Could not create canvas context")
    else
      let drawn := drawImages spacing layout cwidth cheight images in
      let* blob :=
        (if encoder env
         then Resolved {| canvas_width := cwidth; canvas_height := cheight;
                         fillStyle := backgroundColor; placements := drawn |}
         else Rejected "Failed to create image blob") in
      Resolved {| success := true;
                  data := Some blob;
                  filename := Some ("merged_images_" ++ string_of_Z (now env) ++ ".png")%string;
                  error := None |}.

(** [mergeImages]: the [try] block and its [catch]. *)
Definition mergeImages (env : Env) (imageFiles : list File) (options : Options)
  : ProcessingResult :=
  match mergeImages_try env imageFiles options with
  | Resolved r => r
  | Rejected message => failure message
  end.

(** ** Concrete inputs for the examples *)

(** A file that decodes to a [w] x [h] bitmap. *)
Definition bitmap (w h : Z) : File := {| decoded := Some {| width := w; height := h |} |}.

(** A browser in which the canvas and the encoder work. *)
Definition browser : Env := {| context2d := true; encoder := true; now := 1700000000000 |}.

Definition with_options (l : Layout) (s m : Q) : Options :=
  {| layout := Some l; spacing := Some s; backgroundColor := None; maxWidth := Some m |}.

(** ** Vocabulary of the properties *)

(** The two "not enough images" failures of the engine. *)
Definition InsufficientInputError (r : ProcessingResult) : Prop :=
  error r = Some "No images selected"%string \/
  error r = Some "Please select at least 2 images to merge"%string.

(** A run in which every file decodes (to [images], in order) and the browser
    provides a drawing context and an encoder. *)
Definition decodes (env : Env) (imageFiles : list File) (images : list HTMLImageElement) : Prop :=
  map decoded imageFiles = map Some images /\
  context2d env = true /\ encoder env = true.

(** Decoded bitmaps have a positive natural size. *)
Definition sized (images : list HTMLImageElement) : Prop :=
  Forall (fun img => 0 < width img /\ 0 < height img) images.

Definition sum (xs : list Z) : Z := fold_right Z.add 0 xs.

(** [m] is the largest element of [xs]. *)
Definition largest (m : Z) (xs : list Z) : Prop :=
  In m xs /\ Forall (fun v => v <= m) xs.

(** The options with one of them replaced. *)
Definition set_spacing (options : Options) (v : option Q) : Options :=
  {| layout := layout options; spacing := v;
     backgroundColor := backgroundColor options; maxWidth := maxWidth options |}.

Definition set_maxWidth (options : Options) (v : option Q) : Options :=
  {| layout := layout options; spacing := spacing options;
     backgroundColor := backgroundColor options; maxWidth := v |}.



(** The point [(u, v)] lies in the rectangle drawn for [p]. *)
Definition covers (p : Placement) (u v : Q) : Prop :=
  (x p <= u < x p + scaledWidth p /\ y p <= v < y p + scaledHeight p)%Q.

Definition overlap (p q : Placement) : Prop :=
  exists u v, covers p u v /\ covers q u v.

(** [p] and [q] are at least [gap] apart, along x or along y. *)
Definition separated (gap : Q) (p q : Placement) : Prop :=
  (x p + scaledWidth p + gap <= x q \/ x q + scaledWidth q + gap <= x p \/
   y p + scaledHeight p + gap <= y q \/ y q + scaledHeight q + gap <= y p)%Q.

(** An option the caller passes as a non-negative number, or omits. *)
Definition nonnegative (v : option Q) : Prop :=
  match v with Some q => (0 <= q)%Q | None => True end.

(** A size a canvas dimension can hold: not negative and below 2^31. *)
Definition canvas_range (v : Q) : Prop := (0 <= v < 2147483648)%Q.

(** [px] is [v] rounded down to whole pixels.  The code floors the binary64
    value of [v]; when [v] is a whole number that value can fall just below
    it, which costs one more pixel, so [px] lies between [v - 1] and [v]. *)
Definition rounded_down (v : Q) (px : Z) : Prop := (v - 1 <= Z2Q px <= v)%Q.


(** ** The other operations of imageUtils.ts *)

(** A browser [File] with the attributes the other operations read. *)
Record FileInfo : Type := { content : File; name : string; type : string; size : Z }.

(** The [ProcessingResult] of the operations other than [mergeImages], over
    what their blob holds.  The object URL is left out. *)
Module Result.
Record t (Blob : Type) : Type := {
  success : bool;
  data : option Blob;
  filename : option string;
  error : option string;
  originalSize : option Z;
  compressedSize : option Z;
  compressionRatio : option string
}.
Arguments success {Blob} _.
Arguments data {Blob} _.
Arguments filename {Blob} _.
Arguments error {Blob} _.
Arguments originalSize {Blob} _.
Arguments compressedSize {Blob} _.
Arguments compressionRatio {Blob} _.

Definition failure {Blob : Type} (msg : string) : t Blob :=
  {| success := false; data := None; filename := None; error := Some msg;
     originalSize := None; compressedSize := None; compressionRatio := None |}.

Definition try_catch {Blob : Type} (body : completion (t Blob)) : t Blob :=
  match body with
  | Resolved r => r
  | Rejected message => failure message
  end.
End Result.

(** The integer part of a number: rounded toward zero. *)
Definition integer_part (v : Q) : Z := Z.quot (Qnum v) (Zpos (Qden v)).

(** [canvas.width = v] and [canvas.height = v] for a number [v]: the
    conversion to an unsigned long takes the integer part modulo 2^32, and
    the canvas replaces a value above 2^31 - 1 by its default size (300 for
    the width, 150 for the height). *)
Definition to_dimension (default : Z) (v : Q) : Z :=
  let n := integer_part v mod 4294967296 in
  if n <=? 2147483647 then n else default.

(** *** createThumbnail *)

(** The canvas behind the data URL that [createThumbnail] returns: its size
    and the one [drawImage]. *)
Record Thumbnail : Type := {
  thumbnail_width : Z;
  thumbnail_height : Z;
  thumbnail_draw : Placement
}.

(** [maxSize] is a default parameter: it is 200 when the argument is
    omitted, and only then. *)
Definition createThumbnail (env : Env) (file : File) (maxSize : option Q)
  : completion Thumbnail :=
  let maxSize := match maxSize with Some m => m | None => 200%Q end in
  let* img := loadImageFromFile file in
  let scale := Qmin (maxSize / Z2Q (width img)) (maxSize / Z2Q (height img)) in
  let cwidth := to_dimension 300 (Z2Q (width img) * scale) in
  let cheight := to_dimension 150 (Z2Q (height img) * scale) in
  if negb (context2d env) then Rejected "Could not create canvas context"
  else
    Resolved {| thumbnail_width := cwidth;
                thumbnail_height := cheight;
                thumbnail_draw := {| image := img; x := 0; y := 0;
                                     scaledWidth := Z2Q cwidth;
                                     scaledHeight := Z2Q cheight |} |}.

(** *** cropImage *)

Module CropArea.
Record t : Type := { x : Q; y : Q; width : Q; height : Q }.
End CropArea.

(** The canvas of a crop: its size, the one 9-argument [drawImage] and the
    MIME type it is encoded to. *)
Record Cropped : Type := {
  cropped_width : Z;
  cropped_height : Z;
  source : HTMLImageElement;
  sx : Q; sy : Q; sWidth : Q; sHeight : Q;
  dx : Q; dy : Q; dWidth : Q; dHeight : Q;
  cropped_type : string
}.

Definition cropImage (env : Env) (imageFile : FileInfo) (cropArea : CropArea.t)
  : Result.t Cropped :=
  Result.try_catch (
    if Qeq_bool (CropArea.width cropArea) 0 || Qeq_bool (CropArea.height cropArea) 0 then
      Resolved (Result.failure "Invalid crop area")
    else
      let* img := loadImageFromFile (content imageFile) in
      let cwidth := to_dimension 300 (CropArea.width cropArea) in
      let cheight := to_dimension 150 (CropArea.height cropArea) in
      if negb (context2d env) then
        Resolved (Result.failure "Could not create canvas context")
      else
        let* blob :=
          (* toBlob hands null for a canvas without pixels, or when encoding fails *)
          (if negb (cwidth =? 0) && negb (cheight =? 0) && encoder env
           then Resolved {| cropped_width := cwidth; cropped_height := cheight;
                           source := img;
                           sx := CropArea.x cropArea; sy := CropArea.y cropArea;
                           sWidth := CropArea.width cropArea;
                           sHeight := CropArea.height cropArea;
                           dx := 0; dy := 0;
                           dWidth := CropArea.width cropArea;
                           dHeight := CropArea.height cropArea;
                           cropped_type := type imageFile |}
           else Rejected "Failed to create cropped image") in
        Resolved {| Result.success := true;
                    Result.data := Some blob;
                    Result.filename := Some ("cropped_" ++ name imageFile)%string;
                    Result.error := None;
                    Result.originalSize := None;
                    Result.compressedSize := None;
                    Result.compressionRatio := None |}).

(** *** convertImageFormat *)

Inductive TargetFormat : Type := jpeg | png | webp.

Definition format_name (targetFormat : TargetFormat) : string :=
  match targetFormat with
  | jpeg => "jpeg"
  | png => "png"
  | webp => "webp"
  end.

(** [s.split('.')[0]]: the characters of [s] before its first dot. *)
Fixpoint before_dot (s : string) : string :=
  match s with
  | EmptyString => EmptyString
  | String c rest =>
      if Ascii.eqb c "."%char then EmptyString else String c (before_dot rest)
  end.

(** The canvas of a conversion: the size of the image, whether it was filled
    white first, the image drawn at the origin at its natural size, and the
    MIME type it is encoded to. *)
Record Converted : Type := {
  converted_width : Z;
  converted_height : Z;
  white_background : bool;
  converted_image : HTMLImageElement;
  converted_type : string
}.

Definition convertImageFormat (env : Env) (imageFile : FileInfo) (targetFormat : TargetFormat)
  : Result.t Converted :=
  Result.try_catch (
    let* img := loadImageFromFile (content imageFile) in
    if negb (context2d env) then
      Resolved (Result.failure "Could not create canvas context")
    else
      let fill := match targetFormat with jpeg => true | _ => false end in
      let mimeType := ("image/" ++ format_name targetFormat)%string in
      let* blob :=
        (if encoder env
         then Resolved {| converted_width := width img; converted_height := height img;
                         white_background := fill;
                         converted_image := img;
                         converted_type := mimeType |}
         else Rejected "Failed to convert image format") in
      let originalName := before_dot (name imageFile) in
      Resolved {| Result.success := true;
                  Result.data := Some blob;
                  Result.filename :=
                    Some (originalName ++ "_converted." ++ format_name targetFormat)%string;
                  Result.error := None;
                  Result.originalSize := None;
                  Result.compressedSize := None;
                  Result.compressionRatio := None |}).

(** ** The merge handler of the application (App.tsx) *)

(** A file in the application's list: the browser [File] with the id the
    application attaches and its preview, if one could be made. *)
Record FileWithPreview : Type := {
  file : FileInfo;
  id : string;
  preview : option string
}.

Module ProcessingState.
Record t : Type := {
  isProcessing : bool;
  progress : Z;
  result : option ProcessingResult;
  error : option string
}.
End ProcessingState.

Inductive Toast : Type :=
| toast_error (message : string)
| toast_success (message : string).

(** What a handler does: the states it passes to [setProcessing], in order,
    and the toasts it shows. *)
Record Handled : Type := {
  states : list ProcessingState.t;
  toasts : list Toast
}.

(** [setProcessing((prev) => ({ ...prev, progress }))] *)
Definition with_progress (prev : ProcessingState.t) (progress : Z) : ProcessingState.t :=
  {| ProcessingState.isProcessing := ProcessingState.isProcessing prev;
     ProcessingState.progress := progress;
     ProcessingState.result := ProcessingState.result prev;
     ProcessingState.error := ProcessingState.error prev |}.

(** [processImageMerge], on the application's [files] and [layout]. *)
Definition processImageMerge (env : Env) (files : list FileWithPreview) (layout : Layout)
  : Handled :=
  if (length files <? 2)%nat then
    {| states := []; toasts := [toast_error "Please select at least 2 images to merge"] |}
  else
    let imageFiles := filter (fun f => prefix "image/" (type (file f))) files in
    if (length imageFiles <? 2)%nat then
      {| states := []; toasts := [toast_error "Please select at least 2 valid image files"] |}
    else
      let s1 := {| ProcessingState.isProcessing := true; ProcessingState.progress := 10;
                   ProcessingState.result := None; ProcessingState.error := None |} in
      let s2 := with_progress s1 40 in
      let result :=
        mergeImages env (map (fun f => content (file f)) imageFiles)
          {| layout := Some layout; spacing := None;
             backgroundColor := None; maxWidth := None |} in
      let s3 := with_progress s2 100 in
      if success result then
        {| states := [s1; s2; s3;
                      {| ProcessingState.isProcessing := false;
                         ProcessingState.progress := 100;
                         ProcessingState.result := Some result;
                         ProcessingState.error := None |}];
           toasts := [toast_success "Images merged successfully!"] |}
      else
        let message := string_or (error result) "Merge failed" in
        {| states := [s1; s2; s3;
                      {| ProcessingState.isProcessing := false;
                         ProcessingState.progress := 0;
                         ProcessingState.result := None;
                         ProcessingState.error := Some message |}];
           toasts := [toast_error message] |}.

(** ** Fitting an image on a PDF page (imagesToPDFjsPDF, pdfUtils.ts) *)

(** Where [doc.addImage] puts an image. *)
Record Fitted : Type := {
  fitted_x : Q;
  fitted_y : Q;
  finalWidth : Q;
  finalHeight : Q
}.

(** The body of the loop between reading the page size and [doc.addImage]. *)
Definition fitOnPage (pageWidth pageHeight : Q) (img : HTMLImageElement) : Fitted :=
  let imgRatio := (Z2Q (width img) / Z2Q (height img))%Q in
  let pageRatio := (pageWidth / pageHeight)%Q in
  let wider := negb (Qle_bool imgRatio pageRatio) in   (* imgRatio > pageRatio *)
  let finalHeight := if wider then (pageWidth / imgRatio)%Q else pageHeight in
  let finalWidth := if wider then pageWidth else (pageHeight * imgRatio)%Q in
  {| fitted_x := ((pageWidth - finalWidth) / 2)%Q;
     fitted_y := ((pageHeight - finalHeight) / 2)%Q;
     finalWidth := finalWidth;
     finalHeight := finalHeight |}.

(** ** Merging PDF files (mergePDFs, pdfUtils.ts) *)

Section PdfLib.

(** The pages of pdf-lib, and [Number.prototype.toFixed(1)]. *)
Variable PDFPage : Type.
Variable toFixed1 : Q -> string.

(** A PDF file, as far as [mergePDFs] looks at it: its size in bytes and what
    [PDFDocument.load] gives for its bytes, the pages of the document or the
    error thrown. *)
Record PdfFile : Type := {
  pdf_size : Z;
  pdf_load : completion (list PDFPage)
}.

(** [mergedPdf.save()] followed by [new Blob(...)]: the size of the blob for
    a document of these pages, or the error thrown. *)
Variable save : list PDFPage -> completion Z.

(** The loop over the files: [mergedPdf] holds the pages added so far. *)
Fixpoint mergePDFs_loop (pdfFiles : list PdfFile) (mergedPdf : list PDFPage)
    (totalOriginalSize : Z) : completion (list PDFPage * Z) :=
  match pdfFiles with
  | [] => Resolved (mergedPdf, totalOriginalSize)
  | pdfFile :: rest =>
      let totalOriginalSize := totalOriginalSize + pdf_size pdfFile in
      let* copiedPages := pdf_load pdfFile in
      mergePDFs_loop rest (mergedPdf ++ copiedPages) totalOriginalSize
  end.

Definition mergePDFs (env : Env) (pdfFiles : list PdfFile) : Result.t (list PDFPage) :=
  Result.try_catch (
    if (length pdfFiles =? 0)%nat then
      Resolved (Result.failure "No PDF files selected")
    else if (length pdfFiles =? 1)%nat then
      Resolved (Result.failure "Please select at least 2 PDF files to merge")
    else
      let* merged := mergePDFs_loop pdfFiles [] 0 in
      let '(mergedPdf, totalOriginalSize) := merged in
      let* blobSize := save mergedPdf in
      Resolved {| Result.success := true;
                  Result.data := Some mergedPdf;
                  Result.filename :=
                    Some ("merged_pdf_" ++ string_of_Z (now env) ++ ".pdf")%string;
                  Result.error := None;
                  Result.originalSize := Some totalOriginalSize;
                  Result.compressedSize := Some blobSize;
                  Result.compressionRatio :=
                    Some (toFixed1 ((1 - Z2Q blobSize / Z2Q totalOriginalSize) * 100)%Q) |}).

End PdfLib.

Arguments pdf_size {PDFPage} _.
Arguments pdf_load {PDFPage} _.

(** ** Compressing images (compressImage, compressMultipleImages) *)

Inductive Orientation : Type := portrait | landscape.

Record ProcessingOptions : Type := {
  quality : option Q;
  format : option string;
  pageSize : option string;
  orientation : option Orientation
}.

(** The options object handed to the compression library. *)
Record CompressionOptions : Type := {
  maxSizeMB : Q;
  maxWidthOrHeight : option Z;
  useWebWorker : bool;
  fileType : string;
  initialQuality : Q;
  alwaysKeepResolution : bool;
  preserveExif : bool
}.

Section Compression.

(** The library [browser-image-compression], and
    [Number.prototype.toFixed(1)]. *)
Variable imageCompression : FileInfo -> CompressionOptions -> completion FileInfo.
Variable toFixed1 : Q -> string.

Definition compressImage (imageFile : FileInfo) (options : ProcessingOptions)
  : Result.t FileInfo :=
  Result.try_catch (
    let quality := number_or (quality options) (7 # 10) in
    let maxWidthOrHeight :=
      match format options with
      | Some f => if String.eqb f "original" then None else Some 1920
      | None => Some 1920
      end in
    let compressionOptions :=
      {| maxSizeMB := (quality * 10)%Q;
         maxWidthOrHeight := maxWidthOrHeight;
         useWebWorker := true;
         fileType := type imageFile;
         initialQuality := quality;
         alwaysKeepResolution := false;
         preserveExif := false |} in
    let* compressedFile := imageCompression imageFile compressionOptions in
    let compressionRatio :=
      toFixed1 ((1 - Z2Q (size compressedFile) / Z2Q (size imageFile)) * 100)%Q in
    Resolved {| Result.success := true;
                Result.data := Some compressedFile;
                Result.filename := Some ("compressed_" ++ name imageFile)%string;
                Result.error := None;
                Result.originalSize := Some (size imageFile);
                Result.compressedSize := Some (size compressedFile);
                Result.compressionRatio := Some compressionRatio |}).

(** The loop of [compressMultipleImages]: [results] holds what was pushed so
    far. *)
Fixpoint compressMultipleImages_loop (imageFiles : list FileInfo) (options : ProcessingOptions)
    (results : list (Result.t FileInfo)) : list (Result.t FileInfo) :=
  match imageFiles with
  | [] => results
  | imageFile :: rest =>
      let result := compressImage imageFile options in
      compressMultipleImages_loop rest options (results ++ [result])
  end.

Definition compressMultipleImages (imageFiles : list FileInfo) (options : ProcessingOptions)
  : list (Result.t FileInfo) :=
  compressMultipleImages_loop imageFiles options [].

End Compression.

(** ** Lemmas on the primitives *)

Lemma Promise_all_decoded (imageFiles : list File) (images : list HTMLImageElement) :
  map decoded imageFiles = map Some images ->
  Promise_all (map loadImageFromFile imageFiles) = Resolved images.
Proof.
  revert images.
  induction imageFiles as [|f fs IH]; intros [|i rest] H; simpl in H; try discriminate.
  - reflexivity.
  - injection H as Hf Hfs. simpl. unfold loadImageFromFile at 1. rewrite Hf. simpl.
    rewrite (IH _ Hfs). reflexivity.
Qed.

Lemma map_decoded_length (imageFiles : list File) (images : list HTMLImageElement) :
  map decoded imageFiles = map Some images -> length imageFiles = length images.
Proof.
  intros H. apply (f_equal (@length _)) in H. now rewrite !length_map in H.
Qed.

(** What a run that gets past every failure returns. *)
Lemma mergeImages_success env imageFiles images options :
  decodes env imageFiles images ->
  (2 <= length images)%nat ->
  let dims := canvasDimensions (spacing_of options) (maxWidth_of options)
                (layout_of options) images in
  mergeImages env imageFiles options =
  {| success := true;
     data := Some {| canvas_width := Qfloor (fst dims);
                     canvas_height := Qfloor (snd dims);
                     fillStyle := backgroundColor_of options;
                     placements := drawImages (spacing_of options) (layout_of options)
                                     (Qfloor (fst dims)) (Qfloor (snd dims)) images |};
     filename := Some ("merged_images_" ++ string_of_Z (now env) ++ ".png")%string;
     error := None |}.
Proof.
  intros (Hdec & Hctx & Henc) Hlen dims.
  pose proof (map_decoded_length _ _ Hdec) as Hl.
  unfold mergeImages, mergeImages_try.
  destruct (Nat.eqb_spec (length imageFiles) 0); [lia|].
  destruct (Nat.eqb_spec (length imageFiles) 1); [lia|].
  rewrite (Promise_all_decoded _ _ Hdec). simpl await.
  fold dims. destruct dims as [cw ch]. rewrite Hctx, Henc. reflexivity.
Qed.

Lemma Promise_all_rejected (imageFiles : list File) (m : string) :
  Promise_all (map loadImageFromFile imageFiles) = Rejected m ->
  m = "Failed to load image"%string.
Proof.
  induction imageFiles as [|f fs IH]; simpl; [discriminate|].
  unfold loadImageFromFile at 1. destruct (decoded f); simpl.
  - destruct (Promise_all (map loadImageFromFile fs)); simpl; [discriminate|].
    intros H. injection H as <-. now apply IH.
  - intros H. now injection H.
Qed.

(** ** Input validation *)

(** C1. With fewer than two images (none, or one) [mergeImages] fails
    ([success = false]) with the "not enough images" error and produces no
    composite; with two or more images that error is never the outcome, and
    the call succeeds when the images decode and the browser cooperates. *)
Theorem mergeImages_insufficient_input env imageFiles options :
  let r := mergeImages env imageFiles options in
  ((length imageFiles < 2)%nat ->
     success r = false /\ data r = None /\ InsufficientInputError r) /\
  ((2 <= length imageFiles)%nat ->
     ~ InsufficientInputError r /\
     forall images, decodes env imageFiles images ->
       success r = true /\ data r <> None /\ error r = None).
Proof.
  intros r. split.
  - intros Hlt. subst r. unfold mergeImages, mergeImages_try.
    destruct imageFiles as [|f [|g fs]]; simpl in *; try lia; unfold InsufficientInputError;
      simpl; auto.
  - intros Hge. split.
    + subst r. unfold mergeImages, mergeImages_try, InsufficientInputError.
      destruct (Nat.eqb_spec (length imageFiles) 0); [lia|].
      destruct (Nat.eqb_spec (length imageFiles) 1); [lia|].
      destruct (Promise_all (map loadImageFromFile imageFiles)) as [images|m] eqn:E; simpl.
      * destruct (canvasDimensions _ _ _ _) as [cw ch].
        destruct (context2d env); simpl.
        -- destruct (encoder env); simpl; intros [H|H]; discriminate.
        -- intros [H|H]; discriminate.
      * apply Promise_all_rejected in E. subst m. intros [H|H]; discriminate.
    + intros images Hdec.
      assert (Hlen : (2 <= length images)%nat).
      { destruct Hdec as (Hd & _). rewrite <- (map_decoded_length _ _ Hd). exact Hge. }
      subst r. rewrite (mergeImages_success _ _ _ options Hdec Hlen). simpl.
      repeat split; congruence.
Qed.

Lemma mergeImages_insufficient_input_witness :
  (length [bitmap 100 200] < 2)%nat /\
  success (mergeImages browser [bitmap 100 200] (with_options horizontal 10 1200)) = false /\
  data (mergeImages browser [bitmap 100 200] (with_options horizontal 10 1200)) = None.
Proof.
  split; [simpl; lia|].
  pose proof (proj1 (mergeImages_insufficient_input browser [bitmap 100 200]
                       (with_options horizontal 10 1200))) as H.
  simpl in H. destruct H as (H1 & H2 & _); [lia|]. split; assumption.
Defined.

(** ** Sums and maxima *)

Lemma fold_left_add_sum {A : Type} (f : A -> Z) (xs : list A) (acc : Z) :
  fold_left (fun s a => s + f a) xs acc = acc + sum (map f xs).
Proof.
  revert acc. induction xs as [|a xs IH]; intros acc; simpl.
  - lia.
  - rewrite IH. lia.
Qed.

Lemma totalWidth_sum images : totalWidth images = sum (map width images).
Proof. unfold totalWidth. now rewrite fold_left_add_sum. Qed.

Lemma totalHeight_sum images : totalHeight images = sum (map height images).
Proof. unfold totalHeight. now rewrite fold_left_add_sum. Qed.

Lemma fold_left_max_largest (xs : list Z) (a : Z) :
  largest (fold_left Z.max xs a) (a :: xs).
Proof.
  revert a. induction xs as [|b xs IH]; intros a; simpl.
  - split; [now left | repeat constructor; lia].
  - destruct (IH (Z.max a b)) as [Hin Hall]. split.
    + destruct Hin as [Hin|Hin]; [|now right; right].
      rewrite <- Hin. destruct (Z.max_spec a b) as [[_ ->]|[_ ->]]; [right; left|left]; reflexivity.
    + inversion Hall as [|? ? Hm Hxs]; subst.
      constructor; [lia|]. constructor; [lia|]. exact Hxs.
Qed.

Lemma Math_max_largest (xs : list Z) : xs <> [] -> largest (Math_max xs) xs.
Proof.
  destruct xs as [|a xs]; [congruence|]. intros _. apply fold_left_max_largest.
Qed.

Lemma largest_unique (m m' : Z) (xs : list Z) : largest m xs -> largest m' xs -> m = m'.
Proof.
  intros [Hin Hall] [Hin' Hall']. rewrite Forall_forall in Hall, Hall'.
  apply Hall' in Hin. apply Hall in Hin'. lia.
Qed.

Lemma largest_Math_max (m : Z) (xs : list Z) : largest m xs -> Math_max xs = m.
Proof.
  intros H. apply (largest_unique _ _ xs); [|exact H].
  apply Math_max_largest. destruct H as [Hin _]. intros ->. inversion Hin.
Qed.

Lemma sized_sum_width images : sized images -> images <> [] -> 0 < sum (map width images).
Proof.
  intros H. induction H as [|i rest [Hw _] _ IH]; [congruence|]. intros _. simpl.
  destruct rest as [|j js]; simpl in *; [lia|]. assert (0 < width j + sum (map width js)) by (apply IH; congruence). lia.
Qed.

Lemma sized_sum_height images : sized images -> images <> [] -> 0 < sum (map height images).
Proof.
  intros H. induction H as [|i rest [_ Hh] _ IH]; [congruence|]. intros _. simpl.
  destruct rest as [|j js]; simpl in *; [lia|]. assert (0 < height j + sum (map height js)) by (apply IH; congruence). lia.
Qed.

Lemma sized_maxImgWidth images : sized images -> images <> [] -> 0 < maxImgWidth images.
Proof.
  intros H Hne. unfold maxImgWidth.
  destruct (Math_max_largest (map width images)) as [Hin _].
  { destruct images; [congruence|discriminate]. }
  apply in_map_iff in Hin. destruct Hin as (i & <- & Hi).
  unfold sized in H. rewrite Forall_forall in H. now apply H.
Qed.

Lemma sized_maxImgHeight images : sized images -> images <> [] -> 0 < maxImgHeight images.
Proof.
  intros H Hne. unfold maxImgHeight.
  destruct (Math_max_largest (map height images)) as [Hin _].
  { destruct images; [congruence|discriminate]. }
  apply in_map_iff in Hin. destruct Hin as (i & <- & Hi).
  unfold sized in H. rewrite Forall_forall in H. now apply H.
Qed.

Lemma two_nonempty {A : Type} (xs : list A) : (2 <= length xs)%nat -> xs <> [].
Proof. destruct xs; simpl; [lia|congruence]. Qed.

(** ** Falsy defaults *)

Lemma number_or_nonzero (v : option Q) (d : Q) : ~ d == 0 -> ~ number_or v d == 0.
Proof.
  intros Hd. unfold number_or. destruct v as [q|]; [|exact Hd].
  destruct (Qeq_bool q 0) eqn:E; [exact Hd|].
  intros H. apply Qeq_bool_iff in H. congruence.
Qed.

(** C10. Passing [spacing = 0] or [maxWidth = 0] gives exactly the call in
    which the option is omitted: the spacing is 10 and the width budget is
    1200; so the spacing used is never zero. *)
Theorem zero_options_are_defaults env imageFiles options (zero : Q) :
  zero == 0 ->
  mergeImages env imageFiles (set_spacing options (Some zero)) =
    mergeImages env imageFiles (set_spacing options None) /\
  mergeImages env imageFiles (set_maxWidth options (Some zero)) =
    mergeImages env imageFiles (set_maxWidth options None) /\
  spacing_of (set_spacing options (Some zero)) = 10%Q /\
  maxWidth_of (set_maxWidth options (Some zero)) = 1200%Q /\
  ~ spacing_of options == 0 /\ ~ maxWidth_of options == 0.
Proof.
  intros Hz. apply Qeq_bool_iff in Hz.
  assert (Hs : spacing_of (set_spacing options (Some zero)) = 10%Q).
  { unfold spacing_of, set_spacing, number_or; simpl. now rewrite Hz. }
  assert (Hm : maxWidth_of (set_maxWidth options (Some zero)) = 1200%Q).
  { unfold maxWidth_of, set_maxWidth, number_or; simpl. now rewrite Hz. }
  repeat split.
  - unfold mergeImages, mergeImages_try. rewrite Hs. reflexivity.
  - unfold mergeImages, mergeImages_try. rewrite Hm. reflexivity.
  - exact Hs.
  - exact Hm.
  - apply number_or_nonzero. intros H. discriminate H.
  - apply number_or_nonzero. intros H. discriminate H.
Qed.

Lemma zero_options_are_defaults_witness :
  0 == 0 /\
  mergeImages browser [bitmap 100 200; bitmap 300 100] (with_options horizontal 0 0) =
  mergeImages browser [bitmap 100 200; bitmap 300 100]
    {| layout := Some horizontal; spacing := None; backgroundColor := None; maxWidth := None |}.
Proof.
  split; [reflexivity|].
  pose (base := with_options horizontal 0 0).
  transitivity (mergeImages browser [bitmap 100 200; bitmap 300 100] (set_spacing base None)).
  - exact (proj1 (zero_options_are_defaults browser [bitmap 100 200; bitmap 300 100]
                    base 0 (Qeq_refl 0))).
  - exact (proj1 (proj2 (zero_options_are_defaults browser [bitmap 100 200; bitmap 300 100]
                           (set_spacing base None) 0 (Qeq_refl 0)))).
Defined.

(** ** Canvas size *)

Lemma Qfloor_rounded_down (v : Q) : rounded_down v (Qfloor v).
Proof.
  unfold rounded_down. pose proof (Qfloor_le v) as Hle. pose proof (Qlt_floor v) as Hlt.
  rewrite inject_Z_plus in Hlt. change (inject_Z 1) with 1%Q in Hlt. unfold Z2Q. split; lra.
Qed.





(** ** The drawing loops *)

Section Loops.

Variable sp : Q.

Lemma drawHorizontal_length ch s x0 rest :
  length (drawHorizontal sp ch s x0 rest) = length rest.
Proof. revert x0. induction rest; intros; simpl; auto. Qed.

Lemma drawVertical_length cw s y0 rest :
  length (drawVertical sp cw s y0 rest) = length rest.
Proof. revert y0. induction rest; intros; simpl; auto. Qed.

Lemma drawGrid_length cols mw mh s i0 rest :
  length (drawGrid sp cols mw mh s i0 rest) = length rest.
Proof. revert i0. induction rest; intros; simpl; auto. Qed.

(** What the horizontal loop draws for the image at index [i]. *)
Lemma drawHorizontal_nth ch s rest : forall x0 i img,
  nth_error rest i = Some img ->
  exists p, nth_error (drawHorizontal sp ch s x0 rest) i = Some p /\
    image p = img /\
    scaledWidth p = (Z2Q (width img) * s)%Q /\
    scaledHeight p = (Z2Q (height img) * s)%Q /\
    y p = ((Z2Q ch - scaledHeight p) / 2)%Q.
Proof.
  induction rest as [|a rest IH]; intros x0 [|i] img H; simpl in H; try discriminate.
  - injection H as ->. simpl. eexists; split; [reflexivity|]. simpl. auto.
  - simpl. now apply IH.
Qed.

Lemma drawHorizontal_first ch s rest x0 p :
  nth_error (drawHorizontal sp ch s x0 rest) 0 = Some p -> x p = x0.
Proof. destruct rest; simpl; [discriminate|]. now intros [= <-]. Qed.

(** The cursor: each image starts where the one before it ends, plus the
    spacing. *)
Lemma drawHorizontal_step ch s rest : forall x0 i p p',
  nth_error (drawHorizontal sp ch s x0 rest) i = Some p ->
  nth_error (drawHorizontal sp ch s x0 rest) (S i) = Some p' ->
  x p' = (x p + scaledWidth p + sp)%Q.
Proof.
  induction rest as [|a rest IH]; intros x0 [|i] p p' H H'; simpl in H, H'; try discriminate.
  - injection H as <-. simpl. now apply drawHorizontal_first in H'.
  - now apply (IH _ _ _ _ H H').
Qed.

Lemma drawVertical_nth cw s rest : forall y0 i img,
  nth_error rest i = Some img ->
  exists p, nth_error (drawVertical sp cw s y0 rest) i = Some p /\
    image p = img /\
    scaledWidth p = (Z2Q (width img) * s)%Q /\
    scaledHeight p = (Z2Q (height img) * s)%Q /\
    x p = ((Z2Q cw - scaledWidth p) / 2)%Q.
Proof.
  induction rest as [|a rest IH]; intros y0 [|i] img H; simpl in H; try discriminate.
  - injection H as ->. simpl. eexists; split; [reflexivity|]. simpl. auto.
  - simpl. now apply IH.
Qed.

Lemma drawVertical_first cw s rest y0 p :
  nth_error (drawVertical sp cw s y0 rest) 0 = Some p -> y p = y0.
Proof. destruct rest; simpl; [discriminate|]. now intros [= <-]. Qed.

Lemma drawVertical_step cw s rest : forall y0 i p p',
  nth_error (drawVertical sp cw s y0 rest) i = Some p ->
  nth_error (drawVertical sp cw s y0 rest) (S i) = Some p' ->
  y p' = (y p + scaledHeight p + sp)%Q.
Proof.
  induction rest as [|a rest IH]; intros y0 [|i] p p' H H'; simpl in H, H'; try discriminate.
  - injection H as <-. simpl. now apply drawVertical_first in H'.
  - now apply (IH _ _ _ _ H H').
Qed.

(** What the grid loop draws for the image [k] places after index [i0]. *)
Lemma drawGrid_nth cols mw mh s rest : forall i0 k img,
  nth_error rest k = Some img ->
  exists p, nth_error (drawGrid sp cols mw mh s i0 rest) k = Some p /\
    image p = img /\
    scaledWidth p = (Z2Q (width img) * s)%Q /\
    scaledHeight p = (Z2Q (height img) * s)%Q /\
    x p = (Z2Q ((i0 + Z.of_nat k) mod cols) * (Z2Q mw * s + sp))%Q /\
    y p = (Z2Q ((i0 + Z.of_nat k) / cols) * (Z2Q mh * s + sp))%Q.
Proof.
  induction rest as [|a rest IH]; intros i0 [|k] img H; simpl in H; try discriminate.
  - injection H as ->. simpl nth_error. eexists; split; [reflexivity|]. simpl.
    rewrite Z.add_0_r, (Zdiv_Qdiv i0 cols). repeat split; reflexivity.
  - simpl nth_error. destruct (IH (i0 + 1) k img H) as (p & Hp & Hrest).
    exists p. split; [exact Hp|].
    replace (i0 + Z.of_nat (S k)) with (i0 + 1 + Z.of_nat k) by lia. exact Hrest.
Qed.

End Loops.

(** ** Horizontal placement *)

(** C7. In horizontal layout every image is drawn at the scale
    [canvas.height / maxHeight], vertically centred at
    [(canvas.height - scaledHeight) / 2]; the cursor starts at 0 and advances
    by [scaledWidth + spacing] from one image to the next, in input order.
    That scale is not the width-derived scale of the canvas: three 500x3
    images with maxWidth 1200 have canvas scale 4/5 and are drawn at 2/3. *)
Theorem horizontal_placements :
  (forall env imageFiles images options (mh : Z),
     decodes env imageFiles images ->
     (2 <= length images)%nat ->
     sized images ->
     layout_of options = horizontal ->
     largest mh (map height images) ->
     exists c, data (mergeImages env imageFiles options) = Some c /\
       let scale := (Z2Q (canvas_height c) / Z2Q mh)%Q in
       length (placements c) = length images /\
       (forall i img, nth_error images i = Some img ->
          exists p, nth_error (placements c) i = Some p /\
            image p = img /\
            scaledWidth p == Z2Q (width img) * scale /\
            scaledHeight p == Z2Q (height img) * scale /\
            y p == (Z2Q (canvas_height c) - scaledHeight p) / 2) /\
       (forall p, nth_error (placements c) 0 = Some p -> x p == 0) /\
       (forall i p p',
          nth_error (placements c) i = Some p ->
          nth_error (placements c) (S i) = Some p' ->
          x p' == x p + scaledWidth p + spacing_of options)) /\
  (exists c,
     data (mergeImages browser [bitmap 500 3; bitmap 500 3; bitmap 500 3]
             (with_options horizontal 10 1200)) = Some c /\
     canvas_height c = 2 /\
     Qmin 1 (1200 / Z2Q (500 + 500 + 500)) == 4 # 5 /\
     Forall (fun p => scaledWidth p == 500 * (2 # 3) /\ scaledHeight p == 2) (placements c)).
Proof.
  split.
  - intros env imageFiles images options mh Hdec Hlen _ Hlay Hmh.
    rewrite (mergeImages_success _ _ _ options Hdec Hlen). simpl data.
    eexists; split; [reflexivity|]. simpl canvas_height. simpl placements.
    rewrite Hlay. unfold drawImages, maxImgHeight. rewrite (largest_Math_max _ _ Hmh).
    set (ch := Qfloor _). set (sc := (Z2Q ch / Z2Q mh)%Q).
    split; [apply drawHorizontal_length|]. split; [|split].
    + intros i img Hi.
      destruct (drawHorizontal_nth (spacing_of options) ch sc images 0%Q i img Hi)
        as (p & Hp & Himg & Hw & Hh & Hy).
      exists p. rewrite Hy, Hw, Hh. repeat split; try assumption; reflexivity.
    + intros p Hp. apply drawHorizontal_first in Hp. now rewrite Hp.
    + intros i p p' Hp Hp'.
      rewrite (drawHorizontal_step _ _ _ _ _ _ _ _ Hp Hp'). reflexivity.
  - vm_compute. eexists. split; [reflexivity|]. repeat split; repeat constructor.
Qed.

Lemma horizontal_placements_witness :
  exists c,
    data (mergeImages browser [bitmap 100 200; bitmap 300 100]
            (with_options horizontal 10 1200)) = Some c /\
    forall p p',
      nth_error (placements c) 0 = Some p ->
      nth_error (placements c) 1 = Some p' ->
      x p' == x p + scaledWidth p + 10.
Proof.
  destruct (proj1 horizontal_placements browser [bitmap 100 200; bitmap 300 100]
              [{| width := 100; height := 200 |}; {| width := 300; height := 100 |}]
              (with_options horizontal 10 1200) 200) as (c & Hc & _ & _ & _ & Hstep).
  - repeat split.
  - simpl; lia.
  - repeat constructor.
  - reflexivity.
  - split; [now left | simpl; repeat (constructor; [lia|]); constructor].
  - exists c. split; [exact Hc|]. intros p p'. apply Hstep.
Defined.

(** ** Grid layout *)

Local Open Scope Q_scope.

Lemma Z2Q_pos (z : Z) : (0 < z)%Z -> 0 < Z2Q z.
Proof. intros H. unfold Z2Q. change 0%Q with (inject_Z 0). now rewrite <- Zlt_Qlt. Qed.

Lemma Z2Q_nonneg (z : Z) : (0 <= z)%Z -> 0 <= Z2Q z.
Proof. intros H. unfold Z2Q. change 0%Q with (inject_Z 0). now rewrite <- Zle_Qle. Qed.

Lemma Z2Q_le (a b : Z) : (a <= b)%Z -> Z2Q a <= Z2Q b.
Proof. intros H. unfold Z2Q. now rewrite <- Zle_Qle. Qed.

(** [ceil_sqrt n] is the least integer whose square reaches [n]. *)
Lemma ceil_sqrt_spec (n : Z) :
  (1 <= n)%Z ->
  (1 <= ceil_sqrt n)%Z /\
  ((ceil_sqrt n - 1) * (ceil_sqrt n - 1) < n <= ceil_sqrt n * ceil_sqrt n)%Z.
Proof.
  intros Hn. unfold ceil_sqrt.
  pose proof (Z.sqrt_spec n ltac:(lia)) as Hs. cbv zeta in Hs.
  pose proof (Z.sqrt_nonneg n) as Hr.
  set (r := Z.sqrt n) in *.
  assert (1 <= r)%Z by nia.
  destruct (Z.eqb_spec (r * r) n) as [E|E].
  - split; [lia|]. nia.
  - split; [lia|]. replace (r + 1 - 1)%Z with r by lia. unfold Z.succ in Hs. nia.
Qed.

(** The rows are the least number of rows of [cols] cells that hold all images. *)
Lemma grid_rows_spec images :
  (1 <= length images)%nat ->
  let n := Z.of_nat (length images) in
  ((grid_rows images - 1) * grid_cols images < n <= grid_rows images * grid_cols images)%Z.
Proof.
  intros Hlen n.
  assert (Hc : (1 <= grid_cols images)%Z) by (apply ceil_sqrt_spec; lia).
  assert (Hcq : 0 < Z2Q (grid_cols images)) by (apply Z2Q_pos; lia).
  unfold grid_rows. fold n.
  set (q := (Z2Q n / Z2Q (grid_cols images))%Q).
  assert (Hq : q * Z2Q (grid_cols images) == Z2Q n) by (unfold q; field; lra).
  pose proof (Qle_ceiling q) as Hup. pose proof (Qceiling_lt q) as Hlo.
  fold Z2Q in Hup, Hlo. split.
  - rewrite Zlt_Qlt, inject_Z_mult. fold Z2Q. rewrite <- Hq. nra.
  - rewrite Zle_Qle, inject_Z_mult. fold Z2Q. rewrite <- Hq. nra.
Qed.

(** C4. The grid has [cols = ceil(sqrt(n))] columns and [rows = ceil(n / cols)]
    rows, and the image at index [i] is placed in column [i mod cols] and row
    [floor(i / cols)]: at [x = col * (maxImgWidth*scale + spacing)] and
    [y = row * (maxImgHeight*scale + spacing)].  Four images give 2 x 2, five
    give 3 columns and 2 rows, two give 2 columns and 1 row. *)
Theorem grid_cells :
  (forall env imageFiles images options (mw mh : Z),
     decodes env imageFiles images ->
     (2 <= length images)%nat ->
     sized images ->
     layout_of options = grid ->
     largest mw (map width images) ->
     largest mh (map height images) ->
     let n := Z.of_nat (length images) in
     let cols := grid_cols images in
     let rows := grid_rows images in
     ((cols - 1) * (cols - 1) < n <= cols * cols)%Z /\
     ((rows - 1) * cols < n <= rows * cols)%Z /\
     exists c, data (mergeImages env imageFiles options) = Some c /\
       length (placements c) = length images /\
       let scale := (Z2Q (canvas_width c) /
                     (Z2Q mw * Z2Q cols + spacing_of options * (Z2Q cols - 1)))%Q in
       forall i img, nth_error images i = Some img ->
         exists p, nth_error (placements c) i = Some p /\
           image p = img /\
           x p == Z2Q (Z.of_nat i mod cols) * (Z2Q mw * scale + spacing_of options) /\
           y p == Z2Q (Z.of_nat i / cols) * (Z2Q mh * scale + spacing_of options)) /\
  (forall images,
     (length images = 4%nat -> grid_cols images = 2%Z /\ grid_rows images = 2%Z) /\
     (length images = 5%nat -> grid_cols images = 3%Z /\ grid_rows images = 2%Z) /\
     (length images = 2%nat -> grid_cols images = 2%Z /\ grid_rows images = 1%Z)).
Proof.
  split.
  - intros env imageFiles images options mw mh Hdec Hlen _ Hlay Hmw Hmh n cols rows.
    split; [apply ceil_sqrt_spec; lia|].
    split; [apply grid_rows_spec; lia|].
    rewrite (mergeImages_success _ _ _ options Hdec Hlen). simpl data.
    eexists; split; [reflexivity|]. simpl canvas_width. simpl placements.
    rewrite Hlay. unfold drawImages, maxImgWidth, maxImgHeight.
    rewrite (largest_Math_max _ _ Hmw), (largest_Math_max _ _ Hmh).
    split; [apply drawGrid_length|].
    intros i img Hi.
    match goal with |- context [drawGrid ?s ?c ?w ?h ?k 0 images] =>
      destruct (drawGrid_nth s c w h k images 0 i img Hi) as (p & Hp & Himg & _ & _ & Hx & Hy)
    end.
    exists p. rewrite Hx, Hy. simpl Z.add. repeat split; try assumption; reflexivity.
  - intros images. unfold grid_rows, grid_cols.
    repeat split; rewrite H; reflexivity.
Qed.

Lemma grid_cells_witness :
  exists c,
    data (mergeImages browser [bitmap 100 100; bitmap 100 100; bitmap 100 100]
            (with_options grid 10 1200)) = Some c /\
    exists p, nth_error (placements c) 2 = Some p /\ x p == 0 /\ y p == 110.
Proof.
  destruct (proj1 grid_cells browser [bitmap 100 100; bitmap 100 100; bitmap 100 100]
              [{| width := 100; height := 100 |}; {| width := 100; height := 100 |};
               {| width := 100; height := 100 |}]
              (with_options grid 10 1200) 100%Z 100%Z) as (_ & _ & c & Hc & _ & Hcell).
  - repeat split.
  - simpl; lia.
  - repeat constructor.
  - reflexivity.
  - split; [now left | simpl; repeat (constructor; [lia|]); constructor].
  - split; [now left | simpl; repeat (constructor; [lia|]); constructor].
  - exists c. split; [exact Hc|].
    destruct (Hcell 2%nat {| width := 100; height := 100 |} eq_refl) as (p & Hp & _ & Hx & Hy).
    exists p. split; [exact Hp|].
    vm_compute in Hc. injection Hc as <-. split; [rewrite Hx | rewrite Hy]; reflexivity.
Defined.




(** ** Bounds on the canvas *)

Lemma scale_pos (T M : Q) : 0 < T -> 0 < M -> 0 < Qmin 1 (M / T) <= 1.
Proof.
  intros HT HM. assert (Hr : M / T * T == M) by (field; lra).
  assert (0 < M / T) by nra.
  destruct (Q.min_spec 1 (M / T)) as [[Hlt E]|[Hle E]]; rewrite E; split; lra.
Qed.


Lemma Qfloor_nonneg (q : Q) : 0 <= q -> (0 <= Qfloor q)%Z.
Proof. intros H. apply Qfloor_resp_le in H. exact H. Qed.

Lemma Qfloor_ge_1 (q : Q) : 1 <= q -> (1 <= Qfloor q)%Z.
Proof. intros H. apply Qfloor_resp_le in H. exact H. Qed.

Lemma Z2Q_Qfloor_le (q : Q) : Z2Q (Qfloor q) <= q.
Proof. apply Qfloor_le. Qed.

Lemma Z2Q_ge_1 (z : Z) : (1 <= z)%Z -> 1 <= Z2Q z.
Proof. intros H. unfold Z2Q. change 1 with (inject_Z 1). now rewrite <- Zle_Qle. Qed.

Lemma grid_cols_ge_1 images : (1 <= length images)%nat -> (1 <= grid_cols images)%Z.
Proof. intros H. apply ceil_sqrt_spec. lia. Qed.

Lemma grid_rows_ge_1 images : (1 <= length images)%nat -> (1 <= grid_rows images)%Z.
Proof.
  intros H. pose proof (grid_cols_ge_1 _ H). pose proof (grid_rows_spec _ H) as Hr.
  cbv zeta in Hr. nia.
Qed.

Lemma canvasDimensions_nonneg sp M l images :
  images <> [] -> sized images -> 0 <= sp -> 0 < M ->
  0 <= fst (canvasDimensions sp M l images) /\ 0 <= snd (canvasDimensions sp M l images).
Proof.
  intros Hne Hsz Hsp HM.
  assert (Hlen : (1 <= length images)%nat) by (destruct images; simpl; [congruence|lia]).
  assert (Hn : 1 <= Z2Q (Z.of_nat (length images))) by (apply Z2Q_ge_1; lia).
  assert (Hmw : 0 < Z2Q (maxImgWidth images)) by (apply Z2Q_pos, sized_maxImgWidth; auto).
  assert (Hmh : 0 < Z2Q (maxImgHeight images)) by (apply Z2Q_pos, sized_maxImgHeight; auto).
  assert (Htw : 0 < Z2Q (totalWidth images)).
  { apply Z2Q_pos. rewrite totalWidth_sum. now apply sized_sum_width. }
  assert (Hth : 0 < Z2Q (totalHeight images)).
  { apply Z2Q_pos. rewrite totalHeight_sum. now apply sized_sum_height. }
  assert (Hc : 1 <= Z2Q (grid_cols images)) by (apply Z2Q_ge_1, grid_cols_ge_1; lia).
  assert (Hr : 1 <= Z2Q (grid_rows images)) by (apply Z2Q_ge_1, grid_rows_ge_1; lia).
  destruct l; unfold canvasDimensions; simpl fst; simpl snd.
  - destruct (scale_pos (Z2Q (totalWidth images)) M) as [Hs _]; try lra.
    set (n := Z2Q (Z.of_nat (length images))) in *.
    assert (0 <= Z2Q (totalWidth images) + sp * (n - 1)) by nra. split; nra.
  - destruct (scale_pos (Z2Q (maxImgWidth images)) M) as [Hs _]; try lra.
    set (n := Z2Q (Z.of_nat (length images))) in *.
    assert (0 <= Z2Q (totalHeight images) + sp * (n - 1)) by nra. split; nra.
  - set (W := Z2Q (maxImgWidth images)) in *. set (H := Z2Q (maxImgHeight images)) in *.
    set (cols := Z2Q (grid_cols images)) in *. set (rows := Z2Q (grid_rows images)) in *.
    destruct (scale_pos (W * cols) M) as [Hs _]; try nra.
    assert (0 <= W * cols + sp * (cols - 1)) by nra.
    assert (0 <= H * rows + sp * (rows - 1)) by nra. split; nra.
Qed.




(** ** Advance of the cursor against the canvas *)








(** ** Placements do not overlap *)

Lemma separated_sym gap p q : separated gap p q -> separated gap q p.
Proof. unfold separated. tauto. Qed.

Lemma separated_no_overlap gap p q : 0 <= gap -> separated gap p q -> ~ overlap p q.
Proof.
  intros Hg Hs (u & v & [Hpx Hpy] & [Hqx Hqy]).
  destruct Hs as [H|[H|[H|H]]]; lra.
Qed.

Lemma number_or_pos (v : option Q) (d : Q) : nonnegative v -> 0 < d -> 0 < number_or v d.
Proof.
  unfold number_or. destruct v as [q|]; simpl; intros Hq Hd; [|exact Hd].
  destruct (Qeq_bool q 0) eqn:E; [exact Hd|].
  assert (~ q == 0) by (intros H; apply Qeq_bool_iff in H; congruence). lra.
Qed.

Lemma Qdiv_nonneg (a b : Q) : 0 <= a -> 0 < b -> 0 <= a / b.
Proof. intros Ha Hb. apply Qle_shift_div_l; lra. Qed.

Section Ordered.

Variables (sp s : Q).
Hypothesis (Hsp : 0 <= sp) (Hs : 0 <= s).

Lemma scaled_nonneg (z : Z) : (0 < z)%Z -> 0 <= Z2Q z * s.
Proof. intros Hz. pose proof (Z2Q_pos z Hz). nra. Qed.

Lemma drawHorizontal_from ch rest : sized rest -> forall x0 i p,
  nth_error (drawHorizontal sp ch s x0 rest) i = Some p -> x0 <= x p.
Proof.
  induction 1 as [|a rest [Hw _] _ IH]; intros x0 [|i] p Hp; simpl in Hp; try discriminate.
  - injection Hp as <-. simpl. lra.
  - apply IH in Hp. pose proof (scaled_nonneg _ Hw). lra.
Qed.

(** Later images start after earlier ones end, by at least the spacing. *)
Lemma drawHorizontal_ordered ch rest : sized rest -> forall x0 i j p q,
  (i < j)%nat ->
  nth_error (drawHorizontal sp ch s x0 rest) i = Some p ->
  nth_error (drawHorizontal sp ch s x0 rest) j = Some q ->
  x p + scaledWidth p + sp <= x q.
Proof.
  induction 1 as [|a rest Ha Hrest IH]; intros x0 i j p q Hij Hp Hq.
  - destruct i; discriminate.
  - destruct j as [|j]; [lia|]. destruct i as [|i]; simpl in Hp, Hq.
    + injection Hp as <-. simpl. now apply (drawHorizontal_from _ _ Hrest) in Hq.
    + eapply (IH _ i j); eauto. lia.
Qed.

Lemma drawVertical_from cw rest : sized rest -> forall y0 i p,
  nth_error (drawVertical sp cw s y0 rest) i = Some p -> y0 <= y p.
Proof.
  induction 1 as [|a rest [_ Hh] _ IH]; intros y0 [|i] p Hp; simpl in Hp; try discriminate.
  - injection Hp as <-. simpl. lra.
  - apply IH in Hp. pose proof (scaled_nonneg _ Hh). lra.
Qed.

Lemma drawVertical_ordered cw rest : sized rest -> forall y0 i j p q,
  (i < j)%nat ->
  nth_error (drawVertical sp cw s y0 rest) i = Some p ->
  nth_error (drawVertical sp cw s y0 rest) j = Some q ->
  y p + scaledHeight p + sp <= y q.
Proof.
  induction 1 as [|a rest Ha Hrest IH]; intros y0 i j p q Hij Hp Hq.
  - destruct i; discriminate.
  - destruct j as [|j]; [lia|]. destruct i as [|i]; simpl in Hp, Hq.
    + injection Hp as <-. simpl. now apply (drawVertical_from _ _ Hrest) in Hq.
    + eapply (IH _ i j); eauto. lia.
Qed.

End Ordered.

Lemma lattice_step (a b : Z) (pitch : Q) :
  (a < b)%Z -> 0 <= pitch -> (Z2Q a + 1) * pitch <= Z2Q b * pitch.
Proof.
  intros Hab Hp. apply Qmult_le_compat_r; [|exact Hp].
  pose proof (Z2Q_le (a + 1) b ltac:(lia)) as H.
  unfold Z2Q in *. rewrite inject_Z_plus in H. exact H.
Qed.

(** Two placements anchored at different cells of a lattice of pitch
    [cell + gap], each no larger than a cell, are at least [gap] apart. *)
Lemma lattice_separated (gap cellW cellH : Q) (cols i j : Z) (p q : Placement) :
  0 <= gap -> 0 <= cellW -> 0 <= cellH -> (0 < cols)%Z -> i <> j ->
  x p == Z2Q (i mod cols) * (cellW + gap) ->
  y p == Z2Q (i / cols) * (cellH + gap) ->
  scaledWidth p <= cellW -> scaledHeight p <= cellH ->
  x q == Z2Q (j mod cols) * (cellW + gap) ->
  y q == Z2Q (j / cols) * (cellH + gap) ->
  scaledWidth q <= cellW -> scaledHeight q <= cellH ->
  separated gap p q.
Proof.
  intros Hg HW HH Hc Hij Hxp Hyp Hwp Hhp Hxq Hyq Hwq Hhq.
  unfold separated.
  destruct (Z.lt_total (i mod cols) (j mod cols)) as [Hlt|[Heq|Hgt]].
  - left. pose proof (lattice_step _ _ (cellW + gap) Hlt ltac:(lra)). lra.
  - destruct (Z.lt_total (i / cols) (j / cols)) as [Hlt|[Heq'|Hgt]].
    + right; right; left.
      pose proof (lattice_step _ _ (cellH + gap) Hlt ltac:(lra)). lra.
    + exfalso. apply Hij.
      rewrite (Z.div_mod i cols), (Z.div_mod j cols) by lia. now rewrite Heq, Heq'.
    + right; right; right.
      pose proof (lattice_step _ _ (cellH + gap) Hgt ltac:(lra)). lra.
  - right; left. pose proof (lattice_step _ _ (cellW + gap) Hgt ltac:(lra)). lra.
Qed.

Lemma nth_error_same_length {A B : Type} (xs : list A) (ys : list B) (i : nat) (b : B) :
  length ys = length xs -> nth_error ys i = Some b -> exists a, nth_error xs i = Some a.
Proof.
  intros Hlen Hb.
  assert (Hi : (i < length xs)%nat).
  { rewrite <- Hlen. apply nth_error_Some. congruence. }
  destruct (nth_error xs i) as [a|] eqn:E; [now exists a|].
  apply nth_error_None in E. lia.
Qed.

(** Every placement of the grid loop sits at its cell of the lattice and
    fits in the cell. *)
Lemma drawGrid_in_cell sp cols s images i p :
  sized images -> 0 <= s ->
  nth_error (drawGrid sp cols (maxImgWidth images) (maxImgHeight images) s 0 images) i = Some p ->
  x p == Z2Q (Z.of_nat i mod cols) * (Z2Q (maxImgWidth images) * s + sp) /\
  y p == Z2Q (Z.of_nat i / cols) * (Z2Q (maxImgHeight images) * s + sp) /\
  0 <= scaledWidth p <= Z2Q (maxImgWidth images) * s /\
  0 <= scaledHeight p <= Z2Q (maxImgHeight images) * s.
Proof.
  intros Hsz Hs Hp.
  destruct (nth_error_same_length images _ i p (drawGrid_length _ _ _ _ _ _ _) Hp) as [img Hi].
  destruct (drawGrid_nth sp cols (maxImgWidth images) (maxImgHeight images) s images 0 i img Hi)
    as (p' & Hp' & _ & Hw & Hh & Hx & Hy).
  rewrite Hp in Hp'. injection Hp' as <-.
  apply nth_error_In in Hi.
  assert (Hne : images <> []) by (intros ->; inversion Hi).
  destruct (proj1 (Forall_forall _ _) Hsz img Hi) as [Hw0 Hh0].
  assert (Hwm : (width img <= maxImgWidth images)%Z).
  { destruct (Math_max_largest (map width images)) as [_ Hall].
    - destruct images; [congruence|discriminate].
    - rewrite Forall_forall in Hall. apply Hall, in_map, Hi. }
  assert (Hhm : (height img <= maxImgHeight images)%Z).
  { destruct (Math_max_largest (map height images)) as [_ Hall].
    - destruct images; [congruence|discriminate].
    - rewrite Forall_forall in Hall. apply Hall, in_map, Hi. }
  apply Z2Q_le in Hwm, Hhm. apply Z2Q_pos in Hw0, Hh0.
  rewrite Hx, Hy, Hw, Hh. simpl Z.add.
  repeat split; try reflexivity; nra.
Qed.

(** C9. For non-negative spacing (and width budget), no two placements
    overlap: in every layout two distinct placements are at least the spacing
    apart, so their rectangles are disjoint; in grid layout the placements
    sit at the cells of a regular lattice, column [i mod cols] and row
    [i / cols], of pitch cell size plus spacing, each within its cell. *)
Theorem placements_do_not_overlap env imageFiles images options :
  decodes env imageFiles images ->
  (2 <= length images)%nat ->
  sized images ->
  nonnegative (spacing options) ->
  nonnegative (maxWidth options) ->
  exists c, data (mergeImages env imageFiles options) = Some c /\
    (forall i j p q, i <> j ->
       nth_error (placements c) i = Some p ->
       nth_error (placements c) j = Some q ->
       separated (spacing_of options) p q /\ ~ overlap p q) /\
    (layout_of options = grid ->
     exists cellW cellH, 0 <= cellW /\ 0 <= cellH /\
       forall i p, nth_error (placements c) i = Some p ->
         x p == Z2Q (Z.of_nat i mod grid_cols images) * (cellW + spacing_of options) /\
         y p == Z2Q (Z.of_nat i / grid_cols images) * (cellH + spacing_of options) /\
         0 <= scaledWidth p <= cellW /\ 0 <= scaledHeight p <= cellH).
Proof.
  intros Hdec Hlen Hsz Hspo HMo.
  rewrite (mergeImages_success _ _ _ options Hdec Hlen). simpl data.
  eexists; split; [reflexivity|]. simpl placements.
  assert (Hsp : 0 < spacing_of options) by (apply number_or_pos; [assumption|reflexivity]).
  assert (HM : 0 < maxWidth_of options) by (apply number_or_pos; [assumption|reflexivity]).
  set (sp := spacing_of options) in *. set (M := maxWidth_of options) in *.
  pose proof (two_nonempty _ Hlen) as Hne.
  destruct (canvasDimensions_nonneg sp M (layout_of options) images Hne Hsz) as [Hw0 Hh0];
    try lra.
  apply Qfloor_nonneg, Z2Q_nonneg in Hw0, Hh0.
  set (cw := Qfloor (fst _)) in *. set (ch := Qfloor (snd _)) in *.
  assert (Hmw : 0 < Z2Q (maxImgWidth images)) by (apply Z2Q_pos, sized_maxImgWidth; auto).
  assert (Hmh : 0 < Z2Q (maxImgHeight images)) by (apply Z2Q_pos, sized_maxImgHeight; auto).
  assert (Hc : (1 <= grid_cols images)%Z) by (apply grid_cols_ge_1; lia).
  assert (Hcq : 1 <= Z2Q (grid_cols images)) by (apply Z2Q_ge_1, Hc).
  assert (Hgs : 0 <= Z2Q cw / (Z2Q (maxImgWidth images) * Z2Q (grid_cols images) +
                                 sp * (Z2Q (grid_cols images) - 1))).
  { apply Qdiv_nonneg; [assumption|nra]. }
  split.
  - assert (Hsep : forall i j p q, i <> j ->
       nth_error (drawImages sp (layout_of options) cw ch images) i = Some p ->
       nth_error (drawImages sp (layout_of options) cw ch images) j = Some q ->
       separated sp p q).
    { intros i j p q Hij Hp Hq.
      destruct (layout_of options); unfold drawImages in Hp, Hq.
      - assert (Hs : 0 <= Z2Q ch / Z2Q (maxImgHeight images)) by now apply Qdiv_nonneg.
        destruct (Nat.lt_total i j) as [Hlt|[Heq|Hgt]]; [|contradiction|].
        + left. eapply (drawHorizontal_ordered sp _); eauto; lra.
        + right; left. eapply (drawHorizontal_ordered sp _); eauto; lra.
      - assert (Hs : 0 <= Z2Q cw / Z2Q (maxImgWidth images)) by now apply Qdiv_nonneg.
        destruct (Nat.lt_total i j) as [Hlt|[Heq|Hgt]]; [|contradiction|].
        + right; right; left. eapply (drawVertical_ordered sp _); eauto; lra.
        + right; right; right. eapply (drawVertical_ordered sp _); eauto; lra.
      - cbv zeta in Hp, Hq.
        apply drawGrid_in_cell in Hp, Hq; try assumption.
        destruct Hp as (Hxp & Hyp & [_ Hwp] & [_ Hhp]).
        destruct Hq as (Hxq & Hyq & [_ Hwq] & [_ Hhq]).
        match type of Hwp with _ <= ?cellW =>
        match type of Hhp with _ <= ?cellH =>
          apply (lattice_separated sp cellW cellH (grid_cols images) (Z.of_nat i) (Z.of_nat j));
            try assumption; try lia; try lra; nra
        end end. }
    intros i j p q Hij Hp Hq. split; [now apply (Hsep i j)|].
    apply (separated_no_overlap sp); [lra|now apply (Hsep i j)].
  - intros Hlay. rewrite Hlay. unfold drawImages.
    eexists _, _. split; [|split]; [| |intros i p Hp; apply drawGrid_in_cell; eassumption]; nra.
Qed.

Lemma placements_do_not_overlap_witness :
  exists c,
    data (mergeImages browser [bitmap 100 200; bitmap 300 100]
            (with_options horizontal 10 1200)) = Some c /\
    forall p q,
      nth_error (placements c) 0 = Some p ->
      nth_error (placements c) 1 = Some q ->
      ~ overlap p q.
Proof.
  destruct (placements_do_not_overlap browser [bitmap 100 200; bitmap 300 100]
              [{| width := 100; height := 200 |}; {| width := 300; height := 100 |}]
              (with_options horizontal 10 1200)) as (c & Hc & Hsep & _).
  - repeat split.
  - simpl; lia.
  - repeat constructor.
  - simpl. discriminate.
  - simpl. discriminate.
  - exists c. split; [exact Hc|]. intros p q Hp Hq.
    apply (Hsep 0%nat 1%nat p q); [discriminate | exact Hp | exact Hq].
Defined.

(** ** Outcomes of a merge *)

Lemma decoded_images (imageFiles : list File) :
  (forall f, In f imageFiles -> decoded f <> None) ->
  exists images, map decoded imageFiles = map Some images.
Proof.
  induction imageFiles as [|f fs IH]; intros H.
  - now exists [].
  - destruct IH as [images Hi]; [intros g Hg; apply H; now right|].
    destruct (decoded f) as [i|] eqn:E; [|exfalso; apply (H f); [now left|exact E]].
    exists (i :: images). simpl. now rewrite E, Hi.
Qed.

Lemma Promise_all_broken (imageFiles : list File) :
  (exists f, In f imageFiles /\ decoded f = None) ->
  Promise_all (map loadImageFromFile imageFiles) = Rejected "Failed to load image".
Proof.
  intros (f & Hin & Hf).
  destruct (Promise_all (map loadImageFromFile imageFiles)) as [images|m] eqn:E.
  - exfalso. revert images E. induction imageFiles as [|g gs IH]; [inversion Hin|].
    intros images. simpl. unfold loadImageFromFile at 1.
    destruct (decoded g) as [i|] eqn:Eg; simpl; [|discriminate].
    destruct (Promise_all (map loadImageFromFile gs)) as [rest|m] eqn:Er; simpl; [|discriminate].
    intros _. destruct Hin as [->|Hin]; [congruence|]. now apply (IH Hin rest).
  - now rewrite (Promise_all_rejected _ _ E).
Qed.

(** The failures of [mergeImages] on two or more files come in a fixed
    order: a file that does not decode makes the call fail with "Failed to
    load image" whatever the state of the canvas and the encoder; when all
    files decode, a missing 2d context fails with "Could not create canvas
    context", and only then a failing encoder with "Failed to create image
    blob".  The call succeeds exactly when none of the three happens, and a
    failure carries neither data nor a file name. *)
Theorem mergeImages_outcomes env imageFiles options :
  (2 <= length imageFiles)%nat ->
  let r := mergeImages env imageFiles options in
  let all_decode := forall f, In f imageFiles -> decoded f <> None in
  ((exists f, In f imageFiles /\ decoded f = None) ->
     r = failure "Failed to load image") /\
  (all_decode -> context2d env = false ->
     r = failure "Could not create canvas context") /\
  (all_decode -> context2d env = true -> encoder env = false ->
     r = failure "Failed to create image blob") /\
  (success r = true <-> all_decode /\ context2d env = true /\ encoder env = true) /\
  (success r = false -> data r = None /\ filename r = None /\ error r <> None).
Proof.
  intros Hlen r all_decode.
  assert (Hbroken : (exists f, In f imageFiles /\ decoded f = None) ->
                    r = failure "Failed to load image").
  { intros Hb. subst r. unfold mergeImages, mergeImages_try.
    destruct (Nat.eqb_spec (length imageFiles) 0); [lia|].
    destruct (Nat.eqb_spec (length imageFiles) 1); [lia|].
    now rewrite (Promise_all_broken _ Hb). }
  assert (Hrun : all_decode -> exists c,
            r = if context2d env
                then if encoder env
                     then {| success := true; data := Some c;
                             filename := Some ("merged_images_" ++ string_of_Z (now env) ++ ".png")%string;
                             error := None |}
                     else failure "Failed to create image blob"
                else failure "Could not create canvas context").
  { intros Hall. destruct (decoded_images _ Hall) as [images Hi].
    subst r. unfold mergeImages, mergeImages_try.
    destruct (Nat.eqb_spec (length imageFiles) 0); [lia|].
    destruct (Nat.eqb_spec (length imageFiles) 1); [lia|].
    rewrite (Promise_all_decoded _ _ Hi). simpl await.
    destruct (canvasDimensions _ _ _ _) as [cw ch].
    destruct (context2d env); simpl.
    2:{ exists {| canvas_width := 0; canvas_height := 0;
                  fillStyle := EmptyString; placements := [] |}. reflexivity. }
    destruct (encoder env).
    - eexists. cbn [await]. reflexivity.
    - exists {| canvas_width := 0; canvas_height := 0;
                  fillStyle := EmptyString; placements := [] |}. reflexivity. }
  assert (Hdec : all_decode \/ exists f, In f imageFiles /\ decoded f = None).
  { clear. subst all_decode. induction imageFiles as [|f fs IH].
    - left. intros f [].
    - destruct (decoded f) eqn:E; [|right; exists f; split; [now left|exact E]].
      destruct IH as [IH|(g & Hg & Eg)].
      + left. intros g [<-|Hg]; [congruence|now apply IH].
      + right. exists g. split; [now right|exact Eg]. }
  split; [exact Hbroken|]. split; [|split; [|split]].
  - intros Hall Hctx. destruct (Hrun Hall) as [c Hr]. now rewrite Hr, Hctx.
  - intros Hall Hctx Henc. destruct (Hrun Hall) as [c Hr]. now rewrite Hr, Hctx, Henc.
  - split.
    + intros Hs. destruct Hdec as [Hall|Hb].
      * destruct (Hrun Hall) as [c Hr]. rewrite Hr in Hs.
        destruct (context2d env), (encoder env); simpl in Hs; try discriminate. auto.
      * rewrite (Hbroken Hb) in Hs. discriminate.
    + intros (Hall & Hctx & Henc). destruct (Hrun Hall) as [c Hr]. now rewrite Hr, Hctx, Henc.
  - intros Hs. destruct Hdec as [Hall|Hb].
    + destruct (Hrun Hall) as [c Hr]. rewrite Hr in *.
      destruct (context2d env), (encoder env); simpl in *; try discriminate;
        repeat split; discriminate.
    + rewrite (Hbroken Hb). simpl. repeat split; discriminate.
Qed.

Lemma mergeImages_outcomes_witness :
  mergeImages {| context2d := false; encoder := false; now := 0 |}
    [bitmap 100 200; {| decoded := None |}] (with_options grid 10 1200) =
  failure "Failed to load image".
Proof.
  refine (proj1 (mergeImages_outcomes {| context2d := false; encoder := false; now := 0 |}
                   [bitmap 100 200; {| decoded := None |}] (with_options grid 10 1200) _) _).
  - simpl; lia.
  - exists {| decoded := None |}. split; [right; now left | reflexivity].
Defined.

(** ** One scale for all images *)

(** Whatever the layout, the loop draws image [i] as placement [i], at the
    one scale of that layout. *)
Lemma drawImages_nth sp l cw ch images i p :
  nth_error (drawImages sp l cw ch images) i = Some p ->
  let s := match l with
           | horizontal => Z2Q ch / Z2Q (maxImgHeight images)
           | vertical => Z2Q cw / Z2Q (maxImgWidth images)
           | grid => Z2Q cw / (Z2Q (maxImgWidth images) * Z2Q (grid_cols images) +
                               sp * (Z2Q (grid_cols images) - 1))
           end in
  nth_error images i = Some (image p) /\
  scaledWidth p = Z2Q (width (image p)) * s /\
  scaledHeight p = Z2Q (height (image p)) * s /\
  (l = horizontal -> y p = (Z2Q ch - scaledHeight p) / 2) /\
  (l = vertical -> x p = (Z2Q cw - scaledWidth p) / 2).
Proof.
  intros Hp s.
  assert (Hlen : length (drawImages sp l cw ch images) = length images).
  { destruct l; unfold drawImages;
      [apply drawHorizontal_length | apply drawVertical_length | apply drawGrid_length]. }
  destruct (nth_error_same_length images _ i p Hlen Hp) as [img Hi].
  destruct l; unfold drawImages in Hp; cbv zeta in Hp.
  - destruct (drawHorizontal_nth sp ch s images 0 i img Hi) as (p' & Hp' & Him & Hw & Hh & Hy).
    subst s. assert (p' = p) by congruence. subst p' img.
    repeat split; try assumption; congruence.
  - destruct (drawVertical_nth sp cw s images 0 i img Hi) as (p' & Hp' & Him & Hw & Hh & Hx).
    subst s. assert (p' = p) by congruence. subst p' img.
    repeat split; try assumption; congruence.
  - destruct (drawGrid_nth sp (grid_cols images) (maxImgWidth images) (maxImgHeight images)
                s images 0 i img Hi) as (p' & Hp' & Him & Hw & Hh & _).
    subst s. assert (p' = p) by congruence. subst p' img.
    repeat split; try assumption; congruence.
Qed.

Lemma floor_ratio_bounds (E scale : Q) :
  0 < E -> 0 <= scale <= 1 -> 0 <= Z2Q (Qfloor (E * scale)) / E <= 1.
Proof.
  intros HE [H0 H1].
  assert (Hlo : 0 <= Z2Q (Qfloor (E * scale))) by (apply Z2Q_nonneg, Qfloor_nonneg; nra).
  pose proof (Z2Q_Qfloor_le (E * scale)) as Hup.
  split; [now apply Qdiv_nonneg | apply Qle_shift_div_r; [exact HE | nra]].
Qed.

(** In every layout all images of one collage are drawn at one common scale
    between 0 and 1: placement [i] shows image [i] with both sides
    multiplied by that scale, so no image is enlarged or distorted. *)
Theorem placements_share_one_scale env imageFiles images options :
  decodes env imageFiles images ->
  (2 <= length images)%nat ->
  sized images ->
  nonnegative (spacing options) ->
  nonnegative (maxWidth options) ->
  exists c s, data (mergeImages env imageFiles options) = Some c /\
    0 <= s <= 1 /\
    length (placements c) = length images /\
    forall i p, nth_error (placements c) i = Some p ->
      nth_error images i = Some (image p) /\
      scaledWidth p == Z2Q (width (image p)) * s /\
      scaledHeight p == Z2Q (height (image p)) * s /\
      scaledWidth p <= Z2Q (width (image p)) /\
      scaledHeight p <= Z2Q (height (image p)).
Proof.
  intros Hdec Hlen Hsz Hspo HMo.
  rewrite (mergeImages_success _ _ _ options Hdec Hlen). simpl data.
  assert (Hsp : 0 < spacing_of options) by (apply number_or_pos; [assumption|reflexivity]).
  assert (HM : 0 < maxWidth_of options) by (apply number_or_pos; [assumption|reflexivity]).
  set (sp := spacing_of options) in *. set (M := maxWidth_of options) in *.
  pose proof (two_nonempty _ Hlen) as Hne.
  assert (Hmw : 0 < Z2Q (maxImgWidth images)) by (apply Z2Q_pos, sized_maxImgWidth; auto).
  assert (Hmh : 0 < Z2Q (maxImgHeight images)) by (apply Z2Q_pos, sized_maxImgHeight; auto).
  assert (Htw : 0 < Z2Q (totalWidth images)).
  { apply Z2Q_pos. rewrite totalWidth_sum. now apply sized_sum_width. }
  assert (Hcq : 1 <= Z2Q (grid_cols images)) by (apply Z2Q_ge_1, grid_cols_ge_1; lia).
  set (dims := canvasDimensions sp M (layout_of options) images).
  set (s := match layout_of options with
            | horizontal => Z2Q (Qfloor (snd dims)) / Z2Q (maxImgHeight images)
            | vertical => Z2Q (Qfloor (fst dims)) / Z2Q (maxImgWidth images)
            | grid => Z2Q (Qfloor (fst dims)) /
                      (Z2Q (maxImgWidth images) * Z2Q (grid_cols images) +
                       sp * (Z2Q (grid_cols images) - 1))
            end).
  assert (Hs : 0 <= s <= 1).
  { subst s dims. unfold canvasDimensions.
    destruct (layout_of options); simpl fst; simpl snd.
    - apply floor_ratio_bounds; [assumption|].
      destruct (scale_pos (Z2Q (totalWidth images)) M); try assumption. lra.
    - apply floor_ratio_bounds; [assumption|].
      destruct (scale_pos (Z2Q (maxImgWidth images)) M); try assumption. lra.
    - apply floor_ratio_bounds; [nra|].
      destruct (scale_pos (Z2Q (maxImgWidth images) * Z2Q (grid_cols images)) M);
        try assumption; [nra|lra]. }
  eexists _, s. split; [reflexivity|]. split; [exact Hs|]. simpl placements. split.
  - destruct (layout_of options); unfold drawImages;
      [apply drawHorizontal_length | apply drawVertical_length | apply drawGrid_length].
  - intros i p Hp. apply drawImages_nth in Hp. cbv zeta in Hp. fold s in Hp.
    destruct Hp as (Hi & Hw & Hh & _).
    assert (Hin : In (image p) images) by (eapply nth_error_In; eassumption).
    destruct (proj1 (Forall_forall _ _) Hsz _ Hin) as [Hw0 Hh0].
    apply Z2Q_pos in Hw0, Hh0.
    rewrite Hw, Hh. repeat split; try assumption; try reflexivity; nra.
Qed.

Lemma placements_share_one_scale_witness :
  exists c s,
    data (mergeImages browser [bitmap 1200 100; bitmap 1200 100]
            (with_options horizontal 10 1200)) = Some c /\
    0 <= s <= 1 /\ length (placements c) = 2%nat.
Proof.
  destruct (placements_share_one_scale browser [bitmap 1200 100; bitmap 1200 100]
              [{| width := 1200; height := 100 |}; {| width := 1200; height := 100 |}]
              (with_options horizontal 10 1200)) as (c & s & Hc & Hs & Hl & _).
  - repeat split.
  - simpl; lia.
  - repeat constructor.
  - simpl. discriminate.
  - simpl. discriminate.
  - exists c, s. split; [exact Hc|]. split; [exact Hs|exact Hl].
Defined.

(** ** Vertical placement *)

(** In vertical layout every image is drawn at the scale
    [canvas.width / maxImgWidth], horizontally centred at
    [(canvas.width - scaledWidth) / 2]; the cursor starts at 0 and moves down
    by [scaledHeight + spacing] from one image to the next, in input order. *)
Theorem vertical_placements env imageFiles images options (mw : Z) :
  decodes env imageFiles images ->
  (2 <= length images)%nat ->
  sized images ->
  layout_of options = vertical ->
  largest mw (map width images) ->
  exists c, data (mergeImages env imageFiles options) = Some c /\
    let scale := Z2Q (canvas_width c) / Z2Q mw in
    length (placements c) = length images /\
    (forall i img, nth_error images i = Some img ->
       exists p, nth_error (placements c) i = Some p /\
         image p = img /\
         scaledWidth p == Z2Q (width img) * scale /\
         scaledHeight p == Z2Q (height img) * scale /\
         x p == (Z2Q (canvas_width c) - scaledWidth p) / 2) /\
    (forall p, nth_error (placements c) 0 = Some p -> y p == 0) /\
    (forall i p p',
       nth_error (placements c) i = Some p ->
       nth_error (placements c) (S i) = Some p' ->
       y p' == y p + scaledHeight p + spacing_of options).
Proof.
  intros Hdec Hlen _ Hlay Hmw.
  rewrite (mergeImages_success _ _ _ options Hdec Hlen). simpl data.
  eexists; split; [reflexivity|]. simpl canvas_width. simpl placements.
  rewrite Hlay. unfold drawImages, maxImgWidth. rewrite (largest_Math_max _ _ Hmw).
  set (cw := Qfloor _). set (sc := Z2Q cw / Z2Q mw).
  split; [apply drawVertical_length|]. split; [|split].
  - intros i img Hi.
    destruct (drawVertical_nth (spacing_of options) cw sc images 0 i img Hi)
      as (p & Hp & Himg & Hw & Hh & Hx).
    exists p. rewrite Hx, Hw, Hh. repeat split; try assumption; reflexivity.
  - intros p Hp. apply drawVertical_first in Hp. now rewrite Hp.
  - intros i p p' Hp Hp'.
    rewrite (drawVertical_step _ _ _ _ _ _ _ _ Hp Hp'). reflexivity.
Qed.

Lemma vertical_placements_witness :
  exists c,
    data (mergeImages browser [bitmap 100 200; bitmap 300 100]
            (with_options vertical 10 1200)) = Some c /\
    forall p p',
      nth_error (placements c) 0 = Some p ->
      nth_error (placements c) 1 = Some p' ->
      y p' == y p + scaledHeight p + 10.
Proof.
  destruct (vertical_placements browser [bitmap 100 200; bitmap 300 100]
              [{| width := 100; height := 200 |}; {| width := 300; height := 100 |}]
              (with_options vertical 10 1200) 300%Z) as (c & Hc & _ & _ & _ & Hstep).
  - repeat split.
  - simpl; lia.
  - repeat constructor.
  - reflexivity.
  - split; [right; now left | simpl; repeat (constructor; [lia|]); constructor].
  - exists c. split; [exact Hc|]. intros p p'. apply Hstep.
Defined.

(** ** Images stay inside the canvas across the layout *)

Lemma centred_inside (c h m : Z) (s : Q) :
  (0 < h <= m)%Z -> (0 <= c)%Z -> s == Z2Q c / Z2Q m ->
  let d := Z2Q h * s in
  0 <= (Z2Q c - d) / 2 /\ (Z2Q c - d) / 2 + d <= Z2Q c /\
  (h = m -> d == Z2Q c).
Proof.
  intros [Hh Hm] Hc Hs d.
  assert (Hmq : 0 < Z2Q m) by (apply Z2Q_pos; lia).
  assert (Hhq : 0 < Z2Q h) by (apply Z2Q_pos; lia).
  assert (Hle : Z2Q h <= Z2Q m) by now apply Z2Q_le.
  assert (Hcq : 0 <= Z2Q c) by now apply Z2Q_nonneg.
  assert (Hsm : s * Z2Q m == Z2Q c) by (rewrite Hs; field; lra).
  assert (Hs0 : 0 <= s) by (rewrite Hs; now apply Qdiv_nonneg).
  assert (Hd : d <= Z2Q c) by (unfold d; nra).
  assert (E : (Z2Q c - d) / 2 == (Z2Q c - d) * (1 # 2)) by (field).
  split; [|split].
  - rewrite E. lra.
  - rewrite E. lra.
  - intros ->. unfold d. rewrite <- Hsm. ring.
Qed.

(** A horizontal strip never cuts an image at the top or bottom, and a
    vertical stack never cuts one at the sides: in horizontal layout every
    placement lies between the top and the bottom edge of the canvas, with
    equal margins, and an image of the largest height spans the canvas height
    exactly; in vertical layout the same holds for the left and right edges
    and an image of the largest width. *)
Theorem placements_inside_across env imageFiles images options :
  decodes env imageFiles images ->
  (2 <= length images)%nat ->
  sized images ->
  nonnegative (maxWidth options) ->
  exists c, data (mergeImages env imageFiles options) = Some c /\
    (layout_of options = horizontal ->
     forall i p, nth_error (placements c) i = Some p ->
       0 <= y p /\ y p + scaledHeight p <= Z2Q (canvas_height c) /\
       y p == Z2Q (canvas_height c) - (y p + scaledHeight p) /\
       (height (image p) = maxImgHeight images ->
        y p == 0 /\ scaledHeight p == Z2Q (canvas_height c))) /\
    (layout_of options = vertical ->
     forall i p, nth_error (placements c) i = Some p ->
       0 <= x p /\ x p + scaledWidth p <= Z2Q (canvas_width c) /\
       x p == Z2Q (canvas_width c) - (x p + scaledWidth p) /\
       (width (image p) = maxImgWidth images ->
        x p == 0 /\ scaledWidth p == Z2Q (canvas_width c))).
Proof.
  intros Hdec Hlen Hsz HMo.
  rewrite (mergeImages_success _ _ _ options Hdec Hlen). simpl data.
  eexists; split; [reflexivity|]. simpl canvas_width. simpl canvas_height. simpl placements.
  assert (HM : 0 < maxWidth_of options) by (apply number_or_pos; [assumption|reflexivity]).
  set (sp := spacing_of options) in *. set (M := maxWidth_of options) in *.
  pose proof (two_nonempty _ Hlen) as Hne.
  pose proof (sized_maxImgWidth _ Hsz Hne) as Hmw.
  pose proof (sized_maxImgHeight _ Hsz Hne) as Hmh.
  assert (Htw : 0 < Z2Q (totalWidth images)).
  { apply Z2Q_pos. rewrite totalWidth_sum. now apply sized_sum_width. }
  split; intros Hlay i p Hp; rewrite Hlay in *; unfold canvasDimensions in *;
    simpl fst in *; simpl snd in *.
  - set (ch := Qfloor (Z2Q (maxImgHeight images) * _)) in *.
    assert (Hch : (0 <= ch)%Z).
    { apply Qfloor_nonneg. destruct (scale_pos (Z2Q (totalWidth images)) M); try assumption.
      pose proof (Z2Q_pos _ Hmh). nra. }
    apply drawImages_nth in Hp. cbv zeta in Hp. destruct Hp as (Hi & _ & Hh & Hy & _).
    specialize (Hy eq_refl).
    assert (Hin : In (image p) images) by (eapply nth_error_In; eassumption).
    destruct (proj1 (Forall_forall _ _) Hsz _ Hin) as [_ Hh0].
    assert (Hhm : (height (image p) <= maxImgHeight images)%Z).
    { destruct (Math_max_largest (map height images)) as [_ Hall].
      - destruct images; [congruence|discriminate].
      - rewrite Forall_forall in Hall. apply Hall, in_map, Hin. }
    destruct (centred_inside ch (height (image p)) (maxImgHeight images)
                (Z2Q ch / Z2Q (maxImgHeight images)) ltac:(lia) Hch ltac:(reflexivity))
      as (H1 & H2 & H3).
    rewrite <- Hh in H1, H2, H3. rewrite <- Hy in H1, H2.
    split; [exact H1|]. split; [exact H2|]. split.
    + rewrite Hy at 1.
      assert (E : y p + scaledHeight p == (Z2Q ch - scaledHeight p) / 2 + scaledHeight p)
        by (rewrite Hy; reflexivity).
      rewrite E. field.
    + intros Hmax. specialize (H3 Hmax). split; [|exact H3].
      rewrite Hy, H3. field.
  - set (cw := Qfloor (Z2Q (maxImgWidth images) * _)) in *.
    assert (Hcw : (0 <= cw)%Z).
    { apply Qfloor_nonneg.
      destruct (scale_pos (Z2Q (maxImgWidth images)) M); try assumption;
        pose proof (Z2Q_pos _ Hmw); [assumption|nra]. }
    apply drawImages_nth in Hp. cbv zeta in Hp. destruct Hp as (Hi & Hw & _ & _ & Hx).
    specialize (Hx eq_refl).
    assert (Hin : In (image p) images) by (eapply nth_error_In; eassumption).
    destruct (proj1 (Forall_forall _ _) Hsz _ Hin) as [Hw0 _].
    assert (Hwm : (width (image p) <= maxImgWidth images)%Z).
    { destruct (Math_max_largest (map width images)) as [_ Hall].
      - destruct images; [congruence|discriminate].
      - rewrite Forall_forall in Hall. apply Hall, in_map, Hin. }
    destruct (centred_inside cw (width (image p)) (maxImgWidth images)
                (Z2Q cw / Z2Q (maxImgWidth images)) ltac:(lia) Hcw ltac:(reflexivity))
      as (H1 & H2 & H3).
    rewrite <- Hw in H1, H2, H3. rewrite <- Hx in H1, H2.
    split; [exact H1|]. split; [exact H2|]. split.
    + rewrite Hx at 1.
      assert (E : x p + scaledWidth p == (Z2Q cw - scaledWidth p) / 2 + scaledWidth p)
        by (rewrite Hx; reflexivity).
      rewrite E. field.
    + intros Hmax. specialize (H3 Hmax). split; [|exact H3].
      rewrite Hx, H3. field.
Qed.

Lemma placements_inside_across_witness :
  exists c,
    data (mergeImages browser [bitmap 100 200; bitmap 300 100]
            (with_options horizontal 10 1200)) = Some c /\
    forall p, nth_error (placements c) 1 = Some p ->
      0 <= y p /\ y p + scaledHeight p <= Z2Q (canvas_height c).
Proof.
  destruct (placements_inside_across browser [bitmap 100 200; bitmap 300 100]
              [{| width := 100; height := 200 |}; {| width := 300; height := 100 |}]
              (with_options horizontal 10 1200)) as (c & Hc & Hh & _).
  - repeat split.
  - simpl; lia.
  - repeat constructor.
  - simpl. discriminate.
  - exists c. split; [exact Hc|]. intros p Hp.
    destruct (Hh eq_refl 1%nat p Hp) as (H1 & H2 & _). split; assumption.
Defined.

(** ** The order of the files *)

Lemma sum_Permutation (xs ys : list Z) : Permutation xs ys -> sum xs = sum ys.
Proof. induction 1; simpl; lia. Qed.

Lemma largest_Permutation (m : Z) (xs ys : list Z) :
  Permutation xs ys -> largest m xs -> largest m ys.
Proof.
  intros HP [Hin Hall]. split.
  - now apply (Permutation_in _ HP).
  - rewrite Forall_forall in *. intros v Hv. apply Hall.
    now apply (Permutation_in _ (Permutation_sym HP)).
Qed.

Lemma Math_max_Permutation (xs ys : list Z) : Permutation xs ys -> Math_max xs = Math_max ys.
Proof.
  intros HP. destruct xs as [|a xs].
  - apply Permutation_nil in HP. now subst.
  - apply largest_Math_max, (largest_Permutation _ _ _ (Permutation_sym HP)).
    apply Math_max_largest. intros ->. apply Permutation_sym, Permutation_nil in HP. discriminate.
Qed.

Lemma canvasDimensions_Permutation sp M l images images' :
  Permutation images images' ->
  canvasDimensions sp M l images = canvasDimensions sp M l images'.
Proof.
  intros HP. unfold canvasDimensions, grid_rows, grid_cols, maxImgWidth, maxImgHeight.
  rewrite !totalWidth_sum, !totalHeight_sum.
  rewrite (Permutation_length HP).
  rewrite (sum_Permutation _ _ (Permutation_map width HP)).
  rewrite (sum_Permutation _ _ (Permutation_map height HP)).
  rewrite (Math_max_Permutation _ _ (Permutation_map width HP)).
  rewrite (Math_max_Permutation _ _ (Permutation_map height HP)).
  reflexivity.
Qed.

Lemma drawImages_images sp l cw ch images :
  map image (drawImages sp l cw ch images) = images.
Proof.
  destruct l; unfold drawImages; cbv zeta.
  - generalize 0 at 1. generalize (Z2Q ch / Z2Q (maxImgHeight images)).
    induction images as [|a rest IH]; intros s x0; simpl; [reflexivity|]. now rewrite IH.
  - generalize 0 at 1. generalize (Z2Q cw / Z2Q (maxImgWidth images)).
    induction images as [|a rest IH]; intros s y0; simpl; [reflexivity|]. now rewrite IH.
  - generalize 0%Z at 1.
    generalize (Z2Q cw / (Z2Q (maxImgWidth images) * Z2Q (grid_cols images) +
                          sp * (Z2Q (grid_cols images) - 1))).
    generalize (grid_cols images), (maxImgWidth images), (maxImgHeight images).
    induction images as [|a rest IH]; intros cols mw mh s i0; simpl; [reflexivity|].
    now rewrite IH.
Qed.

(** Handing the same files over in another order changes the arrangement,
    not the collage: the canvas has the same width and height, and the same
    images are drawn, each call drawing them in the order it was given. *)
Theorem canvas_size_ignores_order env imageFiles imageFiles' images options :
  decodes env imageFiles images ->
  (2 <= length images)%nat ->
  Permutation imageFiles imageFiles' ->
  exists c c' images',
    data (mergeImages env imageFiles options) = Some c /\
    data (mergeImages env imageFiles' options) = Some c' /\
    canvas_width c = canvas_width c' /\
    canvas_height c = canvas_height c' /\
    map image (placements c) = images /\
    map image (placements c') = images' /\
    Permutation images images'.
Proof.
  intros Hdec Hlen HP.
  destruct Hdec as (Hd & Hctx & Henc).
  pose proof (Permutation_map decoded HP) as HPd. rewrite Hd in HPd.
  destruct (Permutation_map_inv Some images (Permutation_sym HPd)) as (images' & Hd' & HPi).
  assert (Hlen' : (2 <= length images')%nat) by now rewrite <- (Permutation_length HPi).
  rewrite (mergeImages_success env imageFiles images options (conj Hd (conj Hctx Henc)) Hlen).
  rewrite (mergeImages_success env imageFiles' images' options (conj Hd' (conj Hctx Henc)) Hlen').
  simpl data. eexists _, _, images'. split; [reflexivity|]. split; [reflexivity|].
  simpl canvas_width. simpl canvas_height. simpl placements.
  rewrite (canvasDimensions_Permutation _ _ _ _ _ HPi), !drawImages_images.
  repeat split. exact HPi.
Qed.

Lemma canvas_size_ignores_order_witness :
  exists c c',
    data (mergeImages browser [bitmap 100 200; bitmap 300 100]
            (with_options grid 10 1200)) = Some c /\
    data (mergeImages browser [bitmap 300 100; bitmap 100 200]
            (with_options grid 10 1200)) = Some c' /\
    canvas_width c = canvas_width c' /\ canvas_height c = canvas_height c'.
Proof.
  destruct (canvas_size_ignores_order browser [bitmap 100 200; bitmap 300 100]
              [bitmap 300 100; bitmap 100 200]
              [{| width := 100; height := 200 |}; {| width := 300; height := 100 |}]
              (with_options grid 10 1200)) as (c & c' & _ & Hc & Hc' & Hw & Hh & _).
  - repeat split.
  - simpl; lia.
  - apply perm_swap.
  - exists c, c'. repeat split; assumption.
Defined.

(** ** Thumbnails *)

Lemma box_scale (w h M : Q) :
  0 < w -> 0 < h -> 0 < M ->
  0 < Qmin (M / w) (M / h) /\
  w * Qmin (M / w) (M / h) <= M /\ h * Qmin (M / w) (M / h) <= M /\
  (h <= w -> w * Qmin (M / w) (M / h) == M) /\
  (w <= h -> h * Qmin (M / w) (M / h) == M).
Proof.
  intros Hw Hh HM.
  assert (Ea : M / w * w == M) by (field; lra).
  assert (Eb : M / h * h == M) by (field; lra).
  assert (Ha : 0 < M / w) by nra.
  assert (Hb : 0 < M / h) by nra.
  destruct (Q.min_spec (M / w) (M / h)) as [[Hlt E]|[Hle E]]; rewrite E.
  - repeat split; try lra; try nra; intros; nra.
  - repeat split; try lra; try nra; intros; nra.
Qed.

Lemma floor_of_bounded (q M : Q) : 0 <= q <= M -> 0 <= Z2Q (Qfloor q) <= M.
Proof.
  intros [H0 HM]. split; [now apply Z2Q_nonneg, Qfloor_nonneg|].
  eapply Qle_trans; [apply Z2Q_Qfloor_le | exact HM].
Qed.

Lemma floor_above (q M : Q) : q == M -> M - 1 < Z2Q (Qfloor q).
Proof.
  intros E. pose proof (Qlt_floor q) as H. rewrite inject_Z_plus in H.
  change (inject_Z 1) with 1 in H. unfold Z2Q. lra.
Qed.

(** Within the range of a canvas dimension the canvas keeps the number
    rounded down. *)
Lemma to_dimension_in_range (default : Z) (v : Q) :
  canvas_range v -> to_dimension default v = Qfloor v.
Proof.
  intros [H0 Hup]. unfold to_dimension, integer_part.
  assert (Hq : Z.quot (Qnum v) (Zpos (Qden v)) = Qfloor v).
  { destruct v as [n d]. simpl. apply Z.quot_div_nonneg; [|lia].
    unfold Qle in H0. simpl in H0. lia. }
  rewrite Hq.
  assert (Hlo : (0 <= Qfloor v)%Z) by now apply Qfloor_nonneg.
  assert (Hhi : (Qfloor v < 2147483648)%Z).
  { rewrite Zlt_Qlt. eapply Qle_lt_trans; [apply Qfloor_le|exact Hup]. }
  rewrite Z.mod_small by lia.
  destruct (Z.leb_spec (Qfloor v) 2147483647); [reflexivity|lia].
Qed.

(** A thumbnail fits the box: for an image of positive size and a positive
    [maxSize] (200 when omitted) that a canvas can hold, the canvas is at
    most [maxSize] wide and high, its longer side is [maxSize] rounded down
    to whole pixels (so a small image is enlarged to the box), and the image
    is drawn over the whole canvas. *)
Theorem thumbnail_fits env file img (maxSize : option Q) :
  decoded file = Some img ->
  (0 < width img)%Z -> (0 < height img)%Z ->
  context2d env = true ->
  let M := match maxSize with Some m => m | None => 200 end in
  0 < M -> canvas_range M ->
  exists t, createThumbnail env file maxSize = Resolved t /\
    0 <= Z2Q (thumbnail_width t) <= M /\
    0 <= Z2Q (thumbnail_height t) <= M /\
    ((height img <= width img)%Z -> rounded_down M (thumbnail_width t)) /\
    ((width img <= height img)%Z -> rounded_down M (thumbnail_height t)) /\
    thumbnail_draw t =
      {| image := img; x := 0; y := 0;
         scaledWidth := Z2Q (thumbnail_width t);
         scaledHeight := Z2Q (thumbnail_height t) |}.
Proof.
  intros Hdec Hw Hh Hctx M HM [_ HMup].
  unfold createThumbnail, loadImageFromFile. rewrite Hdec. cbn [await]. fold M.
  rewrite Hctx. cbn [negb].
  eexists; split; [reflexivity|].
  cbn [thumbnail_width thumbnail_height thumbnail_draw].
  destruct (box_scale (Z2Q (width img)) (Z2Q (height img)) M
              (Z2Q_pos _ Hw) (Z2Q_pos _ Hh) HM) as (Hs & Hbw & Hbh & Ew & Eh).
  pose proof (Z2Q_pos _ Hw). pose proof (Z2Q_pos _ Hh).
  rewrite !to_dimension_in_range by (split; [nra|lra]).
  split; [apply floor_of_bounded; split; [nra|assumption]|].
  split; [apply floor_of_bounded; split; [nra|assumption]|].
  split; [intros Hle|split; [intros Hle|reflexivity]].
  - pose proof (Ew (Z2Q_le _ _ Hle)) as E.
    set (P := Z2Q (width img) * _) in *.
    pose proof (Qfloor_rounded_down P) as Hr. unfold rounded_down in *. lra.
  - pose proof (Eh (Z2Q_le _ _ Hle)) as E.
    set (P := Z2Q (height img) * _) in *.
    pose proof (Qfloor_rounded_down P) as Hr. unfold rounded_down in *. lra.
Qed.

Lemma thumbnail_fits_witness :
  exists t, createThumbnail browser (bitmap 10 5) (Some 150) = Resolved t /\
    thumbnail_width t = 150%Z /\ thumbnail_height t = 75%Z.
Proof.
  destruct (thumbnail_fits browser (bitmap 10 5) {| width := 10; height := 5 |} (Some 150))
    as (t & Ht & _).
  - reflexivity.
  - reflexivity.
  - reflexivity.
  - reflexivity.
  - reflexivity.
  - split; [discriminate|reflexivity].
  - exists t. split; [exact Ht|].
    vm_compute in Ht. injection Ht as <-. split; reflexivity.
Defined.

(** ** Cropping *)

(** A crop area of zero width or height is refused with "Invalid crop area"
    before the file is looked at, and a file that does not decode fails with
    "Failed to load image".  An area at least one pixel wide and high (and
    within the size a canvas can have) is not checked against the image: when
    the file decodes and the browser provides context and encoder, the crop
    succeeds whatever the size of the image and wherever the area lies, with
    a canvas of the area's width and height rounded down, the area copied to
    the origin without scaling, the MIME type of the file, and the name
    "cropped_" followed by the file's name.  An area less than one pixel wide
    or high leaves a canvas without pixels, and the crop fails with "Failed
    to create cropped image". *)
Theorem cropImage_outcomes env imageFile cropArea :
  let r := cropImage env imageFile cropArea in
  let empty := CropArea.width cropArea == 0 \/ CropArea.height cropArea == 0 in
  let w := CropArea.width cropArea in
  let h := CropArea.height cropArea in
  (empty -> r = Result.failure "Invalid crop area") /\
  (~ empty -> decoded (content imageFile) = None ->
     r = Result.failure "Failed to load image") /\
  (1 <= w -> 1 <= h -> canvas_range w -> canvas_range h -> forall img,
     decoded (content imageFile) = Some img ->
     context2d env = true -> encoder env = true ->
     Result.success r = true /\
     Result.error r = None /\
     Result.filename r = Some ("cropped_" ++ name imageFile)%string /\
     exists c, Result.data r = Some c /\
       cropped_width c = Qfloor w /\ cropped_height c = Qfloor h /\
       source c = img /\
       sx c = CropArea.x cropArea /\ sy c = CropArea.y cropArea /\
       sWidth c = w /\ sHeight c = h /\
       dx c = 0 /\ dy c = 0 /\ dWidth c = sWidth c /\ dHeight c = sHeight c /\
       cropped_type c = type imageFile) /\
  (~ empty -> 0 <= w -> 0 <= h -> w < 1 \/ h < 1 -> forall img,
     decoded (content imageFile) = Some img ->
     context2d env = true ->
     r = Result.failure "Failed to create cropped image").
Proof.
  intros r empty w h. subst r empty w h. unfold cropImage.
  destruct (Qeq_bool (CropArea.width cropArea) 0) eqn:Ew;
    destruct (Qeq_bool (CropArea.height cropArea) 0) eqn:Eh; cbn [orb];
    try (apply Qeq_bool_iff in Ew); try (apply Qeq_bool_iff in Eh).
  1,2,3: split; [reflexivity|]; split; [intros Hne; exfalso; apply Hne; auto|];
    split; [intros Hpw Hph; exfalso; lra | intros Hne; exfalso; apply Hne; auto].
  assert (Hw : ~ CropArea.width cropArea == 0).
  { intros H. apply Qeq_bool_iff in H. congruence. }
  assert (Hh : ~ CropArea.height cropArea == 0).
  { intros H. apply Qeq_bool_iff in H. congruence. }
  split; [intros [H|H]; contradiction|]. split; [|split].
  - intros _ Hdec. unfold loadImageFromFile. rewrite Hdec. reflexivity.
  - intros Hw1 Hh1 Hrw Hrh img Hdec Hctx Henc.
    unfold loadImageFromFile. rewrite Hdec, Hctx, Henc. cbn [await negb].
    rewrite !to_dimension_in_range by assumption.
    pose proof (Qfloor_ge_1 _ Hw1). pose proof (Qfloor_ge_1 _ Hh1).
    destruct (Z.eqb_spec (Qfloor (CropArea.width cropArea)) 0); [lia|].
    destruct (Z.eqb_spec (Qfloor (CropArea.height cropArea)) 0); [lia|].
    cbn. repeat split. eexists. split; [reflexivity|]. cbn. repeat split.
  - intros _ Hw0 Hh0 Hsmall img Hdec Hctx.
    unfold loadImageFromFile. rewrite Hdec, Hctx. cbn [await negb].
    assert (Hzero : to_dimension 300 (CropArea.width cropArea) = 0%Z \/
                    to_dimension 150 (CropArea.height cropArea) = 0%Z).
    { destruct Hsmall as [Hs|Hs]; [left|right];
        (rewrite to_dimension_in_range by (split; [assumption|lra]));
        match goal with |- Qfloor ?v = _ =>
          pose proof (Qfloor_nonneg v ltac:(assumption));
          pose proof (Qfloor_le v) as Hle;
          assert (Hlt : (Qfloor v < 1)%Z)
            by (rewrite Zlt_Qlt; eapply Qle_lt_trans; [exact Hle|exact Hs])
        end; lia. }
    destruct Hzero as [-> | ->]; cbn [Z.eqb negb andb].
    + reflexivity.
    + destruct (negb _); reflexivity.
Qed.

Lemma cropImage_outcomes_witness :
  Result.success
    (cropImage browser
       {| content := bitmap 100 100; name := "a.png"; type := "image/png"; size := 10 |}
       {| CropArea.x := 500; CropArea.y := 500;
          CropArea.width := 200; CropArea.height := 300 |}) = true.
Proof.
  refine (proj1 (proj1 (proj2 (proj2 (cropImage_outcomes browser
            {| content := bitmap 100 100; name := "a.png"; type := "image/png"; size := 10 |}
            {| CropArea.x := 500; CropArea.y := 500;
               CropArea.width := 200; CropArea.height := 300 |}))) _ _ _ _
            {| width := 100; height := 100 |} eq_refl eq_refl eq_refl));
    try (split; [discriminate|reflexivity]); discriminate.
Defined.

(** ** Converting the format *)

Lemma before_dot_stem (stem tail : string) :
  (forall a b, stem <> (a ++ String "." b)%string) ->
  before_dot (stem ++ String "." tail) = stem /\ before_dot stem = stem.
Proof.
  induction stem as [|c stem IH]; intros Hnodot.
  - split; reflexivity.
  - destruct (Ascii.eqb_spec c ".") as [->|Hc].
    + exfalso. apply (Hnodot EmptyString stem). reflexivity.
    + destruct IH as [IH1 IH2].
      { intros a b E. apply (Hnodot (String c a) b). simpl. now rewrite E. }
      simpl. destruct (Ascii.eqb_spec c "."); [contradiction|].
      now rewrite IH1, IH2.
Qed.

(** The converted file is named after the part of the name before its first
    dot: a file called [stem], or [stem] followed by a dot and anything,
    where [stem] has no dot, is converted to [stem ++ "_converted." ++ format];
    the canvas has the size of the image, and it is filled white first only
    for jpeg. *)
Theorem convertImageFormat_result env imageFile targetFormat img (stem : string) :
  decoded (content imageFile) = Some img ->
  context2d env = true -> encoder env = true ->
  (forall a b, stem <> (a ++ String "." b)%string) ->
  (name imageFile = stem \/ exists tail, name imageFile = (stem ++ String "." tail)%string) ->
  let r := convertImageFormat env imageFile targetFormat in
  Result.success r = true /\
  Result.filename r = Some (stem ++ "_converted." ++ format_name targetFormat)%string /\
  exists c, Result.data r = Some c /\
    converted_width c = width img /\ converted_height c = height img /\
    converted_image c = img /\
    (white_background c = true <-> targetFormat = jpeg) /\
    converted_type c = ("image/" ++ format_name targetFormat)%string.
Proof.
  intros Hdec Hctx Henc Hstem Hname r. subst r.
  unfold convertImageFormat, loadImageFromFile. rewrite Hdec, Hctx, Henc. cbn.
  assert (E : before_dot (name imageFile) = stem).
  { destruct Hname as [->|[tail ->]]; now apply before_dot_stem. }
  rewrite E. split; [reflexivity|]. split; [reflexivity|].
  eexists. split; [reflexivity|]. cbn. repeat split; try reflexivity.
  - destruct targetFormat; [reflexivity|discriminate|discriminate].
  - intros ->. reflexivity.
Qed.

Lemma convertImageFormat_result_witness :
  Result.filename
    (convertImageFormat browser
       {| content := bitmap 100 100; name := "holiday.2024.png"; type := "image/png"; size := 10 |}
       jpeg) = Some "holiday_converted.jpeg"%string.
Proof.
  refine (proj1 (proj2 (convertImageFormat_result browser
            {| content := bitmap 100 100; name := "holiday.2024.png";
               type := "image/png"; size := 10 |}
            jpeg {| width := 100; height := 100 |} "holiday" eq_refl eq_refl eq_refl _ _))).
  - intros a b E.
    assert (H : forall s, In "."%char (list_ascii_of_string (s ++ String "." b))).
    { induction s; simpl; auto. }
    specialize (H a). rewrite <- E in H. simpl in H.
    repeat (destruct H as [H|H]; [discriminate H|]). exact H.
  - right. exists "2024.png"%string. reflexivity.
Defined.

(** ** The merge handler *)

(** On two or more files [mergeImages] returns a success or one of three
    failures. *)
Lemma mergeImages_shape env imageFiles options :
  (2 <= length imageFiles)%nat ->
  let r := mergeImages env imageFiles options in
  (success r = true /\ error r = None) \/
  (success r = false /\
   (r = failure "Failed to load image" \/
    r = failure "Could not create canvas context" \/
    r = failure "Failed to create image blob")).
Proof.
  intros Hlen r. subst r. unfold mergeImages, mergeImages_try.
  destruct (Nat.eqb_spec (length imageFiles) 0); [lia|].
  destruct (Nat.eqb_spec (length imageFiles) 1); [lia|].
  destruct (Promise_all (map loadImageFromFile imageFiles)) as [images|m] eqn:E; cbn [await].
  - destruct (canvasDimensions _ _ _ _) as [cw ch].
    destruct (context2d env); cbn [negb]; [|right; split; [reflexivity|auto]].
    destruct (encoder env); cbn [await]; [left; split; reflexivity|].
    right. split; [reflexivity|auto].
  - apply Promise_all_rejected in E. subst m. right. split; [reflexivity|auto].
Qed.

(** The merge handler of the application never lets [mergeImages] see fewer
    than two files: with fewer than two files of an image type it only shows
    an error toast and sets no state.  Otherwise it merges the image files,
    in the order of the list, with the chosen layout and the default spacing
    10 and width budget 1200, reports progress 10, 40 and 100 while
    processing, and ends not processing: with the result at progress 100 and
    a success toast, or with the error of [mergeImages] at progress 0, no
    result and an error toast; that error is never the "not enough images"
    error. *)
Theorem processImageMerge_outcomes env files layout :
  let imageFiles := filter (fun f => prefix "image/" (type (file f))) files in
  let h := processImageMerge env files layout in
  let busy p := {| ProcessingState.isProcessing := true; ProcessingState.progress := p;
                   ProcessingState.result := None; ProcessingState.error := None |} in
  ((length imageFiles < 2)%nat ->
     states h = [] /\ exists m, toasts h = [toast_error m]) /\
  ((2 <= length imageFiles)%nat ->
     let r := mergeImages env (map (fun f => content (file f)) imageFiles)
                (with_options layout 10 1200) in
     ~ InsufficientInputError r /\
     exists final,
       states h = [busy 10%Z; busy 40%Z; busy 100%Z; final] /\
       ProcessingState.isProcessing final = false /\
       (success r = true ->
          final = {| ProcessingState.isProcessing := false;
                     ProcessingState.progress := 100;
                     ProcessingState.result := Some r;
                     ProcessingState.error := None |} /\
          toasts h = [toast_success "Images merged successfully!"]) /\
       (success r = false ->
          exists m, error r = Some m /\
            final = {| ProcessingState.isProcessing := false;
                       ProcessingState.progress := 0;
                       ProcessingState.result := None;
                       ProcessingState.error := Some m |} /\
            toasts h = [toast_error m])).
Proof.
  intros imageFiles h busy. subst h. unfold processImageMerge. fold imageFiles.
  assert (Hsub : (length imageFiles <= length files)%nat) by apply filter_length_le.
  split.
  - intros Hlt.
    destruct (Nat.ltb_spec (length files) 2); [split; [reflexivity|eexists; reflexivity]|].
    destruct (Nat.ltb_spec (length imageFiles) 2); [split; [reflexivity|eexists; reflexivity]|lia].
  - intros Hge.
    set (r := mergeImages env (map (fun f => content (file f)) imageFiles)
                (with_options layout 10 1200)).
    destruct (Nat.ltb_spec (length files) 2); [lia|].
    destruct (Nat.ltb_spec (length imageFiles) 2); [lia|].
    assert (Hlen : (2 <= length (map (fun f => content (file f)) imageFiles))%nat)
      by now rewrite length_map.
    change (mergeImages env (map (fun f => content (file f)) imageFiles)
              {| layout := Some layout; spacing := None;
                 backgroundColor := None; maxWidth := None |}) with r.
    pose proof (mergeImages_shape env _ (with_options layout 10 1200) Hlen) as Hshape.
    cbv zeta in Hshape. fold r in Hshape.
    split.
    { unfold InsufficientInputError.
      destruct Hshape as [[_ He]|[_ [Hr|[Hr|Hr]]]]; [rewrite He|rewrite Hr..];
        intros [H'|H']; discriminate H'. }
    destruct Hshape as [[Hs He]|[Hs Hr]].
    + rewrite Hs. eexists. split; [reflexivity|]. split; [reflexivity|].
      split; [intros _; split; reflexivity|]. intros Hf. congruence.
    + rewrite Hs. eexists. split; [reflexivity|]. split; [reflexivity|].
      split; [intros Hf; congruence|]. intros _.
      destruct Hr as [Hr|[Hr|Hr]]; rewrite Hr; eexists; (split; [reflexivity|]);
        split; reflexivity.
Qed.

Lemma processImageMerge_outcomes_witness :
  toasts (processImageMerge browser
            [{| file := {| content := bitmap 100 200; name := "a.png";
                           type := "image/png"; size := 10 |};
                id := "a1"; preview := None |};
             {| file := {| content := bitmap 300 100; name := "notes.pdf";
                           type := "application/pdf"; size := 10 |};
                id := "b2"; preview := None |}]
            horizontal) =
  [toast_error "Please select at least 2 valid image files"].
Proof.
  destruct (proj1 (processImageMerge_outcomes browser
            [{| file := {| content := bitmap 100 200; name := "a.png";
                           type := "image/png"; size := 10 |};
                id := "a1"; preview := None |};
             {| file := {| content := bitmap 300 100; name := "notes.pdf";
                           type := "application/pdf"; size := 10 |};
                id := "b2"; preview := None |}]
            horizontal)) as (_ & m & Hm).
  - simpl. lia.
  - rewrite Hm. vm_compute in Hm. injection Hm as <-. reflexivity.
Defined.

(** ** Fitting an image on a page *)

(** An image of positive size is fitted on a page of positive size so that
    it lies within the page, keeps its proportions, reaches the full width
    or the full height of the page, and is centred: the margins left and
    right are equal, and so are those above and below. *)
Theorem fitOnPage_fits (pageWidth pageHeight : Q) (img : HTMLImageElement) :
  0 < pageWidth -> 0 < pageHeight ->
  (0 < width img)%Z -> (0 < height img)%Z ->
  let f := fitOnPage pageWidth pageHeight img in
  0 < finalWidth f <= pageWidth /\
  0 < finalHeight f <= pageHeight /\
  (finalWidth f == pageWidth \/ finalHeight f == pageHeight) /\
  finalWidth f * Z2Q (height img) == finalHeight f * Z2Q (width img) /\
  0 <= fitted_x f /\ 0 <= fitted_y f /\
  fitted_x f + finalWidth f + fitted_x f == pageWidth /\
  fitted_y f + finalHeight f + fitted_y f == pageHeight.
Proof.
  intros Hpw Hph Hw Hh f. subst f. unfold fitOnPage.
  apply Z2Q_pos in Hw, Hh.
  set (w := Z2Q (width img)) in *. set (h := Z2Q (height img)) in *.
  assert (Er : w / h * h == w) by (field; lra).
  assert (ER : pageWidth / pageHeight * pageHeight == pageWidth) by (field; lra).
  assert (Hr : 0 < w / h) by nra.
  assert (HR : 0 < pageWidth / pageHeight) by nra.
  set (r := w / h) in *. set (R := pageWidth / pageHeight) in *.
  destruct (Qle_bool r R) eqn:E; cbn [negb fitted_x fitted_y finalWidth finalHeight].
  - apply Qle_bool_iff in E.
    assert (Ex : (pageWidth - pageHeight * r) / 2 == (pageWidth - pageHeight * r) * (1 # 2))
      by field.
    assert (Ey : (pageHeight - pageHeight) / 2 == 0) by field.
    rewrite Ex, Ey. repeat split; try lra; try nra.
  - assert (Hlt : R < r).
    { apply Qnot_le_lt. intros H. apply Qle_bool_iff in H. congruence. }
    assert (Eq : pageWidth / r * r == pageWidth) by (field; lra).
    assert (Hq : 0 < pageWidth / r) by nra.
    set (q := pageWidth / r) in *.
    assert (Ex : (pageWidth - pageWidth) / 2 == 0) by field.
    assert (Ey : (pageHeight - q) / 2 == (pageHeight - q) * (1 # 2)) by field.
    assert (Hqle : q <= pageHeight) by nra.
    rewrite Ex, Ey. repeat split; try lra; try nra.
Qed.

Lemma fitOnPage_fits_witness :
  finalWidth (fitOnPage 210 297 {| width := 400; height := 300 |}) == 210 /\
  finalHeight (fitOnPage 210 297 {| width := 400; height := 300 |}) <= 297.
Proof.
  destruct (fitOnPage_fits 210 297 {| width := 400; height := 300 |})
    as (_ & [_ Hh] & _); try reflexivity.
  split; [reflexivity|exact Hh].
Defined.

(** ** Merging PDF files *)

Section PdfMerge.

Variable PDFPage : Type.
Variable toFixed1 : Q -> string.
Variable save : list PDFPage -> completion Z.

Lemma mergePDFs_loop_loaded (pdfFiles : list (PdfFile PDFPage)) (docs : list (list PDFPage)) :
  map (@pdf_load PDFPage) pdfFiles = map Resolved docs ->
  forall mergedPdf total,
    mergePDFs_loop PDFPage pdfFiles mergedPdf total =
    Resolved (mergedPdf ++ concat docs, (total + sum (map (@pdf_size PDFPage) pdfFiles))%Z).
Proof.
  revert docs. induction pdfFiles as [|f fs IH]; intros [|d ds] H; simpl in H; try discriminate.
  - intros mergedPdf total. simpl. now rewrite app_nil_r, Z.add_0_r.
  - injection H as Hf Hfs. intros mergedPdf total. simpl. rewrite Hf. cbn [await].
    rewrite (IH _ Hfs). now rewrite <- app_assoc, Z.add_assoc.
Qed.

Lemma mergePDFs_loop_broken (good rest : list (PdfFile PDFPage)) (bad : PdfFile PDFPage)
    (docs : list (list PDFPage)) (m : string) :
  map (@pdf_load PDFPage) good = map Resolved docs ->
  pdf_load bad = Rejected m ->
  forall mergedPdf total,
    mergePDFs_loop PDFPage (good ++ bad :: rest) mergedPdf total = Rejected m.
Proof.
  revert docs. induction good as [|f fs IH]; intros [|d ds] H Hbad; simpl in H; try discriminate.
  - intros mergedPdf total. simpl. now rewrite Hbad.
  - injection H as Hf Hfs. intros mergedPdf total. simpl. rewrite Hf. cbn [await].
    now apply (IH _ Hfs).
Qed.

End PdfMerge.

(** [mergePDFs] refuses fewer than two files without loading any.  With two
    or more files that all load, the merged document holds the pages of the
    files, file after file in the order given, the original size is the sum
    of the file sizes and the compressed size is the size of the saved
    document; the first file that fails to load makes the whole call fail
    with that file's error, and so does a failing save. *)
Theorem mergePDFs_outcomes (PDFPage : Type) (toFixed1 : Q -> string)
    (save : list PDFPage -> completion Z) (env : Env) (pdfFiles : list (PdfFile PDFPage)) :
  let r := mergePDFs PDFPage toFixed1 save env pdfFiles in
  (pdfFiles = [] -> r = Result.failure "No PDF files selected") /\
  (length pdfFiles = 1%nat ->
     r = Result.failure "Please select at least 2 PDF files to merge") /\
  ((2 <= length pdfFiles)%nat ->
     (forall docs, map (@pdf_load PDFPage) pdfFiles = map Resolved docs ->
        (forall blobSize, save (concat docs) = Resolved blobSize ->
           Result.success r = true /\
           Result.data r = Some (concat docs) /\
           Result.originalSize r = Some (sum (map (@pdf_size PDFPage) pdfFiles)) /\
           Result.compressedSize r = Some blobSize) /\
        (forall m, save (concat docs) = Rejected m -> r = Result.failure m)) /\
     (forall good bad rest docs m,
        pdfFiles = good ++ bad :: rest ->
        map (@pdf_load PDFPage) good = map Resolved docs ->
        pdf_load bad = Rejected m ->
        r = Result.failure m)).
Proof.
  intros r. subst r. unfold mergePDFs. split; [intros ->; reflexivity|]. split.
  - intros H. destruct pdfFiles as [|f [|g fs]]; try discriminate. reflexivity.
  - intros Hlen.
    destruct (Nat.eqb_spec (length pdfFiles) 0); [lia|].
    destruct (Nat.eqb_spec (length pdfFiles) 1); [lia|].
    split.
    + intros docs Hdocs. rewrite (mergePDFs_loop_loaded _ _ _ Hdocs). cbn [await app].
      split.
      * intros blobSize Hsave. rewrite Hsave. cbn. repeat split.
      * intros m Hsave. rewrite Hsave. reflexivity.
    + intros good bad rest docs m -> Hgood Hbad.
      rewrite (mergePDFs_loop_broken _ _ _ _ _ _ Hgood Hbad). reflexivity.
Qed.

Lemma mergePDFs_outcomes_witness :
  Result.data
    (mergePDFs nat (fun _ => "0.0"%string) (fun pages => Resolved (Z.of_nat (length pages)))
       browser
       [{| pdf_size := 10; pdf_load := Resolved [1%nat; 2%nat] |};
        {| pdf_size := 20; pdf_load := Resolved [3%nat] |}]) = Some [1%nat; 2%nat; 3%nat].
Proof.
  destruct (mergePDFs_outcomes nat (fun _ => "0.0"%string)
              (fun pages => Resolved (Z.of_nat (length pages))) browser
              [{| pdf_size := 10; pdf_load := Resolved [1%nat; 2%nat] |};
               {| pdf_size := 20; pdf_load := Resolved [3%nat] |}]) as (_ & _ & H).
  destruct H as [Hok _]; [simpl; lia|].
  destruct (Hok [ [1%nat; 2%nat]; [3%nat] ] eq_refl) as [Hs _].
  destruct (Hs 3%Z eq_refl) as (_ & Hd & _). exact Hd.
Defined.

(** ** Compressing images *)

Section CompressionFacts.

Variable imageCompression : FileInfo -> CompressionOptions -> completion FileInfo.
Variable toFixed1 : Q -> string.

Lemma compressMultipleImages_loop_map imageFiles options : forall results,
  compressMultipleImages_loop imageCompression toFixed1 imageFiles options results =
  results ++ map (fun f => compressImage imageCompression toFixed1 f options) imageFiles.
Proof.
  induction imageFiles as [|f fs IH]; intros results; simpl.
  - now rewrite app_nil_r.
  - rewrite IH, <- app_assoc. reflexivity.
Qed.

End CompressionFacts.

(** [compressMultipleImages] gives one result per file, in the order of the
    files: result [i] is what [compressImage] gives for file [i], so a file
    the library rejects yields a failure in its place, carrying the library's
    error, and the files after it are still compressed. *)
Theorem compressMultipleImages_results
    (imageCompression : FileInfo -> CompressionOptions -> completion FileInfo)
    (toFixed1 : Q -> string) (imageFiles : list FileInfo) (options : ProcessingOptions) :
  let results := compressMultipleImages imageCompression toFixed1 imageFiles options in
  length results = length imageFiles /\
  forall i f, nth_error imageFiles i = Some f ->
    nth_error results i = Some (compressImage imageCompression toFixed1 f options) /\
    (forall m, (forall c, imageCompression f c = Rejected m) ->
       nth_error results i = Some (Result.failure m)).
Proof.
  intros results. subst results. unfold compressMultipleImages.
  rewrite compressMultipleImages_loop_map. cbn [app]. split; [apply length_map|].
  intros i f Hi. rewrite nth_error_map, Hi. cbn [option_map]. split; [reflexivity|].
  intros m Hrej. unfold compressImage. rewrite Hrej. reflexivity.
Qed.

Lemma compressMultipleImages_results_witness :
  nth_error
    (compressMultipleImages
       (fun f _ => if String.eqb (type f) "image/png" then Resolved f else Rejected "unsupported")
       (fun _ => "0.0"%string)
       [{| content := bitmap 1 1; name := "a.gif"; type := "image/gif"; size := 5 |};
        {| content := bitmap 1 1; name := "b.png"; type := "image/png"; size := 5 |}]
       {| quality := None; format := None; pageSize := None; orientation := None |}) 0 =
  Some (Result.failure "unsupported").
Proof.
  destruct (compressMultipleImages_results
       (fun f _ => if String.eqb (type f) "image/png" then Resolved f else Rejected "unsupported")
       (fun _ => "0.0"%string)
       [{| content := bitmap 1 1; name := "a.gif"; type := "image/gif"; size := 5 |};
        {| content := bitmap 1 1; name := "b.png"; type := "image/png"; size := 5 |}]
       {| quality := None; format := None; pageSize := None; orientation := None |})
    as [_ H].
  destruct (H 0%nat {| content := bitmap 1 1; name := "a.gif"; type := "image/gif"; size := 5 |}
              eq_refl) as [_ Hrej].
  apply Hrej. intros c. reflexivity.
Defined.

(** Asking [compressImage] for quality 0 gives the same as not asking for a
    quality, and the same as asking for 0.7. *)
Theorem compressImage_zero_quality
    (imageCompression : FileInfo -> CompressionOptions -> completion FileInfo)
    (toFixed1 : Q -> string) (imageFile : FileInfo) (options : ProcessingOptions) (zero : Q) :
  zero == 0 ->
  let asking q := {| quality := q; format := format options;
                     pageSize := pageSize options; orientation := orientation options |} in
  compressImage imageCompression toFixed1 imageFile (asking (Some zero)) =
    compressImage imageCompression toFixed1 imageFile (asking None) /\
  compressImage imageCompression toFixed1 imageFile (asking (Some zero)) =
    compressImage imageCompression toFixed1 imageFile (asking (Some (7 # 10))).
Proof.
  intros Hz asking. apply Qeq_bool_iff in Hz.
  unfold compressImage, asking, number_or. cbn [quality format]. rewrite Hz.
  repeat split.
Qed.

Lemma compressImage_zero_quality_witness :
  compressImage (fun f o => Resolved f) (fun _ => "0.0"%string)
    {| content := bitmap 1 1; name := "b.png"; type := "image/png"; size := 5 |}
    {| quality := Some 0; format := None; pageSize := None; orientation := None |} =
  compressImage (fun f o => Resolved f) (fun _ => "0.0"%string)
    {| content := bitmap 1 1; name := "b.png"; type := "image/png"; size := 5 |}
    {| quality := None; format := None; pageSize := None; orientation := None |}.
Proof.
  exact (proj1 (compressImage_zero_quality (fun f o => Resolved f) (fun _ => "0.0"%string)
           {| content := bitmap 1 1; name := "b.png"; type := "image/png"; size := 5 |}
           {| quality := Some 0; format := None; pageSize := None; orientation := None |}
           0 (Qeq_refl 0))).
Defined.

(** ** Input order on the canvas *)

(** A horizontal strip shows the images left to right in input order, and a
    vertical stack top to bottom: there is one placement per image,
    placement [i] showing image [i], and for non-negative spacing and width
    budget the placement of an image later in the list starts at least the
    spacing after the end of the placement of every earlier image. *)
Theorem placements_follow_input_order env imageFiles images options :
  decodes env imageFiles images ->
  (2 <= length images)%nat ->
  sized images ->
  nonnegative (spacing options) ->
  nonnegative (maxWidth options) ->
  exists c, data (mergeImages env imageFiles options) = Some c /\
    length (placements c) = length images /\
    forall i j a b, (i < j)%nat ->
      nth_error images i = Some a ->
      nth_error images j = Some b ->
      exists p q,
        nth_error (placements c) i = Some p /\ image p = a /\
        nth_error (placements c) j = Some q /\ image q = b /\
        (layout_of options = horizontal ->
         x p + scaledWidth p + spacing_of options <= x q) /\
        (layout_of options = vertical ->
         y p + scaledHeight p + spacing_of options <= y q).
Proof.
  intros Hdec Hlen Hsz Hspo HMo.
  rewrite (mergeImages_success _ _ _ options Hdec Hlen). simpl data.
  eexists; split; [reflexivity|]. simpl placements.
  assert (Hsp : 0 < spacing_of options) by (apply number_or_pos; [assumption|reflexivity]).
  assert (HM : 0 < maxWidth_of options) by (apply number_or_pos; [assumption|reflexivity]).
  set (sp := spacing_of options) in *. set (M := maxWidth_of options) in *.
  pose proof (two_nonempty _ Hlen) as Hne.
  destruct (canvasDimensions_nonneg sp M (layout_of options) images Hne Hsz) as [Hw0 Hh0];
    try lra.
  apply Qfloor_nonneg, Z2Q_nonneg in Hw0, Hh0.
  set (cw := Qfloor (fst _)) in *. set (ch := Qfloor (snd _)) in *.
  assert (Hmw : 0 < Z2Q (maxImgWidth images)) by (apply Z2Q_pos, sized_maxImgWidth; auto).
  assert (Hmh : 0 < Z2Q (maxImgHeight images)) by (apply Z2Q_pos, sized_maxImgHeight; auto).
  assert (Hl : length (drawImages sp (layout_of options) cw ch images) = length images).
  { destruct (layout_of options); unfold drawImages;
      [apply drawHorizontal_length | apply drawVertical_length | apply drawGrid_length]. }
  split; [exact Hl|].
  intros i j a b Hij Ha Hb.
  destruct (nth_error_same_length (drawImages sp (layout_of options) cw ch images) images
              i a (eq_sym Hl) Ha) as [p Hp].
  destruct (nth_error_same_length (drawImages sp (layout_of options) cw ch images) images
              j b (eq_sym Hl) Hb) as [q Hq].
  exists p, q.
  pose proof (drawImages_nth _ _ _ _ _ _ _ Hp) as Hpi. cbv zeta in Hpi.
  pose proof (drawImages_nth _ _ _ _ _ _ _ Hq) as Hqi. cbv zeta in Hqi.
  destruct Hpi as (Hpi & _). destruct Hqi as (Hqi & _).
  split; [exact Hp|]. split; [congruence|]. split; [exact Hq|]. split; [congruence|].
  split; intros Hlay; rewrite Hlay in Hp, Hq; unfold drawImages in Hp, Hq.
  - assert (Hs : 0 <= Z2Q ch / Z2Q (maxImgHeight images)) by now apply Qdiv_nonneg.
    eapply (drawHorizontal_ordered sp _); eauto; lra.
  - assert (Hs : 0 <= Z2Q cw / Z2Q (maxImgWidth images)) by now apply Qdiv_nonneg.
    eapply (drawVertical_ordered sp _); eauto; lra.
Qed.

Lemma placements_follow_input_order_witness :
  exists c,
    data (mergeImages browser [bitmap 100 200; bitmap 300 100]
            (with_options vertical 10 1200)) = Some c /\
    exists p q,
      nth_error (placements c) 0 = Some p /\ image p = {| width := 100; height := 200 |} /\
      nth_error (placements c) 1 = Some q /\ image q = {| width := 300; height := 100 |} /\
      y p + scaledHeight p + 10 <= y q.
Proof.
  destruct (placements_follow_input_order browser [bitmap 100 200; bitmap 300 100]
              [{| width := 100; height := 200 |}; {| width := 300; height := 100 |}]
              (with_options vertical 10 1200)) as (c & Hc & _ & Hord).
  - repeat split.
  - simpl; lia.
  - repeat constructor.
  - simpl. discriminate.
  - simpl. discriminate.
  - exists c. split; [exact Hc|].
    destruct (Hord 0%nat 1%nat {| width := 100; height := 200 |}
                {| width := 300; height := 100 |} ltac:(lia) eq_refl eq_refl)
      as (p & q & Hp & Hip & Hq & Hiq & _ & Hv).
    exists p, q. repeat split; try assumption. now apply Hv.
Defined.
